(** * The provisioning endpoint and its background worker

    A shallow embedding of [src/server/routes/api.js] (the
    [POST /provisionServices] handler) and of
    [src/server/services/provisionServices.js] (the worker, [queryAll],
    [mockProvisionCall] and [sanitizeSalesforceId]).

    JavaScript strings are sequences of UTF-16 code units; values that the
    code probes dynamically are kept in a small value type; the outside
    world (Salesforce data API, the callback sink, the clock, the UUID
    generator) is an abstract state threaded through every call, and every
    effect the code performs is appended to a trace. *)

From Stdlib Require Import String Ascii NArith ZArith Decimal DecimalNat Lia.
From stdpp Require Import base option list gmap.

Set Warnings "-register-all".

Local Open Scope N_scope.

(** ** Strings *)

(** A JavaScript string: its UTF-16 code units. *)
Definition jsstring : Type := list N.

(** A source-code literal (ASCII text) as a JavaScript string. *)
Definition lit (s : string) : jsstring :=
  map N_of_ascii (list_ascii_of_string s).

(** [String.prototype.trim] strips WhiteSpace and LineTerminator code
    points (ECMA-262, 22.1.3.32): TAB, LF, VT, FF, CR, SP, NBSP, the
    Unicode space separators, LS, PS and U+FEFF. *)
Definition isWhiteSpace (c : N) : bool :=
  (9 <=? c) && (c <=? 13)
  || (c =? 32) || (c =? 160) || (c =? 5760)
  || (8192 <=? c) && (c <=? 8202)
  || (c =? 8232) || (c =? 8233) || (c =? 8239) || (c =? 8287)
  || (c =? 12288) || (c =? 65279).

Fixpoint trimStart (s : jsstring) : jsstring :=
  match s with
  | c :: s' => if isWhiteSpace c then trimStart s' else s
  | [] => []
  end.

Definition trimEnd (s : jsstring) : jsstring :=
  rev (trimStart (rev s)).

Definition trim (s : jsstring) : jsstring := trimEnd (trimStart s).

(** The character class [[a-zA-Z0-9]]. *)
Definition isAlnum (c : N) : bool :=
  (48 <=? c) && (c <=? 57)
  || (65 <=? c) && (c <=? 90)
  || (97 <=? c) && (c <=? 122).

(** [/^[a-zA-Z0-9]{15,18}$/.test(s)]: the pattern is anchored at both ends
    and has no flags, so it matches when the whole string is made of
    between 15 and 18 characters of the class. *)
Definition salesforceIdPattern_test (s : jsstring) : bool :=
  forallb isAlnum s
  && (15 <=? length s)%nat && (length s <=? 18)%nat.

(** [String(n)] for a non-negative integer: its decimal digits.  The
    numbers rendered here are array lengths and a counter of array
    elements; they are integers below 2^53, which JavaScript numbers hold
    exactly, and are kept as [nat]. *)
Fixpoint digits (d : Decimal.uint) : jsstring :=
  match d with
  | Decimal.Nil => []
  | Decimal.D0 d => 48 :: digits d
  | Decimal.D1 d => 49 :: digits d
  | Decimal.D2 d => 50 :: digits d
  | Decimal.D3 d => 51 :: digits d
  | Decimal.D4 d => 52 :: digits d
  | Decimal.D5 d => 53 :: digits d
  | Decimal.D6 d => 54 :: digits d
  | Decimal.D7 d => 55 :: digits d
  | Decimal.D8 d => 56 :: digits d
  | Decimal.D9 d => 57 :: digits d
  end.

Definition numberToString (n : nat) : jsstring := digits (Nat.to_uint n).

(** [Array.prototype.join] on an array of strings. *)
Fixpoint join (sep : jsstring) (l : list jsstring) : jsstring :=
  match l with
  | [] => []
  | [s] => s
  | s :: l' => s ++ sep ++ join sep l'
  end.

(** ** Values *)

(** The values a request body or a function argument may hold.  Numbers
    are only ever tested for truthiness or for their type here, so they are
    kept as integers; [JObject] stands for any non-array object. *)
Inductive JsValue : Type :=
| JUndefined
| JNull
| JBool (b : bool)
| JNumber (z : Z)
| JString (s : jsstring)
| JArray (items : list JsValue)
| JObject.

(** [ToBoolean]. *)
Definition truthy (v : JsValue) : bool :=
  match v with
  | JUndefined | JNull => false
  | JBool b => b
  | JNumber z => negb (z =? 0)%Z
  | JString s => negb (bool_decide (s = []))
  | JArray _ | JObject => true
  end.

(** A property that holds a string when it is there: [None] is
    [undefined] (or [null]). *)
Definition Val : Type := option jsstring.

Definition truthyVal (v : Val) : bool :=
  match v with
  | Some (_ :: _) => true
  | _ => false
  end.

(** [a || b]. *)
Definition orElse (a b : Val) : Val := if truthyVal a then a else b.

(** ** Record-id sanitization *)

(** [sanitizeSalesforceId]: [null] is [None]. *)
Definition sanitizeSalesforceId (id : JsValue) : Val :=
  match id with
  | JString s =>
      let trimmed := trim s in
      if salesforceIdPattern_test trimmed then Some trimmed else None
  | _ => None
  end.

Definition quote (id : jsstring) : jsstring := lit "'" ++ id ++ lit "'".

(** [opportunityIds.map(id => sanitizeSalesforceId(id)).filter(Boolean)]:
    the ids that reach the query. *)
Definition sanitizedIds (opportunityIds : list JsValue) : list jsstring :=
  omap (fun v => v)
    (filter (fun v => truthyVal v = true) (map sanitizeSalesforceId opportunityIds)).

(** [... .map(id => `'${id}'`).join(',')]. *)
Definition opportunityIdList (opportunityIds : list JsValue) : jsstring :=
  join (lit ",") (map quote (sanitizedIds opportunityIds)).

Definition oppQuery (opportunityIdList : jsstring) : jsstring :=
  lit "
      SELECT Id, Name, AccountId, CloseDate, StageName, Amount,
             (SELECT Id, Product2Id, Product2.Name, Quantity, UnitPrice, PricebookEntryId FROM OpportunityLineItems)
      FROM Opportunity
      WHERE Id IN (" ++ opportunityIdList ++ lit ")
    ".

Definition paramQuery : jsstring :=
  lit "SELECT Name__c, Value__c FROM ProvisioningParameter__mdt".

(** ** Records returned by the data API

    An object is modelled by the properties the code reads from it. *)

Record Product2Fields : Type := { p2f_Name : Val }.

Record Product2Object : Type := {
  p2_fields : option Product2Fields;
  p2_Name : Val
}.

Record Fields : Type := {
  f_Id : Val;
  f_id : Val;
  f_Name__c : Val;
  f_Value__c : Val;
  f_Product2 : option Product2Object;
  f_Product2Id : Val
}.

(** A nested (line item) record: its [fields] property, and the properties
    found on the object itself ([oliSObject.id]). *)
Record LineItemSObject : Type := {
  li_fields : option Fields;
  li_own : Fields
}.

Record SubQueryResult : Type := { sq_records : option (list LineItemSObject) }.

Record SubQueryResults : Type := {
  OpportunityLineItems : option SubQueryResult
}.

Record SObject : Type := {
  so_fields : option Fields;
  so_own : Fields;
  subQueryResults : option SubQueryResults
}.

Record QueryResult : Type := {
  records : list SObject;
  done : bool;
  nextRecordsUrl : Val
}.

(** ** Results of a job *)

Record ServiceResult : Type := {
  serviceId : jsstring;
  opportunityId : Val;
  lineItemId : Val;
  productReference : Val;
  status : jsstring;
  message : jsstring
}.

Record JobSummary : Type := {
  total : nat;
  succeeded : nat;
  failed : nat
}.

Record CallbackPayload : Type := {
  cb_jobId : jsstring;
  cb_opportunityIds : JsValue;
  cb_services : list ServiceResult;
  cb_summary : JobSummary;
  cb_status : jsstring;
  cb_errors : list jsstring
}.

(** The options of the callback request.  [body] is
    [JSON.stringify(callbackResults)]; it is kept as the object that is
    serialised. *)
Record RequestOptions : Type := {
  method : jsstring;
  headers : list (jsstring * jsstring);
  body : CallbackPayload
}.

(** ** Exceptions, completions, effects *)

Record JsError : Type := {
  err_name : jsstring;
  err_message : jsstring
}.

Definition TypeError (msg : jsstring) : JsError :=
  {| err_name := lit "TypeError"; err_message := msg |}.

Definition Error (msg : jsstring) : JsError :=
  {| err_name := lit "Error"; err_message := msg |}.

(** How a call ends: with a value, or with an exception (a rejected
    promise, under [await]). *)
Inductive Completion (A : Type) : Type :=
| Normal (a : A)
| Throw (e : JsError).
Arguments Normal {A} a.
Arguments Throw {A} e.

Inductive LogLevel : Type := level_info | level_warn | level_error.

(** A property of the object given first to a logger call. *)
Inductive LogField : Type :=
| LErr (key : string) (e : JsError)
| LStr (key : string) (s : jsstring)
| LVal (key : string) (v : Val).

Inductive ReplyPayload : Type :=
| ReplyJob (jobId : jsstring)
| ReplyError (error : jsstring).

(** [`${v}`] for a property that may be [undefined]. *)
Definition toStr (v : Val) : jsstring :=
  match v with
  | Some s => s
  | None => lit "undefined"
  end.

(** [`svc-${jobId}-${counter}`]. *)
Definition makeServiceId (jobId : jsstring) (counter : nat) : jsstring :=
  lit "svc-" ++ jobId ++ lit "-" ++ numberToString counter.

(** The object built by [paramResult.records.reduce(..., {})], as the
    finite map of its own properties under names other than [__proto__].
    [acc[name] = value] under any other name creates or updates an own
    property of [acc].  Under the name [__proto__] the assignment goes to
    the accessor that [acc] inherits from [Object.prototype] (or, once the
    prototype is gone, to a property of that very name): no property of
    another name is created or changed, and the map stays as it is.  The
    worker reads the object at [DefaultTier], [Region] and [Compliance]
    only; none of these is found on [Object.prototype], so the map gives
    the same reads as the object. *)
Definition addParameter (acc : gmap jsstring Val) (record : SObject) : gmap jsstring Val :=
  let fields := match so_fields record with
                | Some f => f
                | None => so_own record
                end in
  match f_Name__c fields with
  | Some (c :: name) =>
      if bool_decide (c :: name = lit "__proto__") then acc
      else <[ c :: name := f_Value__c fields ]> acc
  | _ => acc
  end.

Definition reduceParameters (records : list SObject) : gmap jsstring Val :=
  foldl addParameter ∅ records.

(** [provisioningParameters?.key], for the names that the worker reads:
    [DefaultTier], [Region], [Compliance]. *)
Definition parameter (provisioningParameters : gmap jsstring Val) (key : string) : Val :=
  match provisioningParameters !! lit key with
  | Some v => v
  | None => None
  end.

(** [oli.Product2?.fields?.Name || oli.Product2?.Name || oli.Product2Id || 'Service']. *)
Definition productLabelOf (oli : Fields) : Val :=
  orElse (orElse (orElse
    (match f_Product2 oli with
     | Some p => match p2_fields p with Some pf => p2f_Name pf | None => None end
     | None => None
     end)
    (match f_Product2 oli with Some p => p2_Name p | None => None end))
    (f_Product2Id oli))
    (Some (lit "Service")).

(** The summary of a job:
    [{ total: services.length, succeeded: services.length, failed: 0 }]. *)
Definition jobSummary (services : list ServiceResult) : JobSummary :=
  {| total := length services;
     succeeded := length services;
     failed := 0 |}.

Section Program.

Context {World : Type}.

(** [crypto.randomUUID()]. *)
Variable crypto_randomUUID : World -> jsstring * World.

(** [new Intl.DateTimeFormat(undefined, {...}).format(new Date())]. *)
Variable formatNow : World -> jsstring * World.

(** The authenticated context injected by the middleware. *)
Record DataApi : Type := {
  query : jsstring -> World -> Completion QueryResult * World;
  queryMore : QueryResult -> World -> Completion QueryResult * World
}.

Record Org : Type := {
  dataApi : option DataApi;
  request : JsValue -> RequestOptions -> World -> Completion unit * World
}.

Record OrgContext : Type := { org : option Org }.

Record Client : Type := { context : option OrgContext }.

(** The closure handed to [setImmediate]. *)
Record Job : Type := {
  job_jobId : jsstring;
  job_opportunityIds : JsValue;
  job_client : option Client;
  job_callbackUrl : JsValue
}.

(** What the program does to the outside, in the order it does it.
    [Raised e] marks the point where an exception arises: a call to the
    outside that rejects, or an operation of the program that throws. *)
Inductive Event : Type :=
| Log (level : LogLevel) (bindings : list LogField) (msg : jsstring)
| RandomUUID (uuid : jsstring)
| Reply (code : nat) (payload : ReplyPayload)
| SetImmediate (job : Job)
| Query (soql : jsstring)
| QueryMore (previous : QueryResult)
| SetTimeout (ms : N)
| FormatDate (timestamp : jsstring)
| Request (url : JsValue) (options : RequestOptions)
| Raised (e : JsError).

(** A computation runs from a state of the world and ends with a
    completion, the new state of the world and the events it produced;
    [None] when a loop does not finish within its fuel, or where the run
    is decided by code that this development does not follow. *)
Definition M (A : Type) : Type :=
  World -> option (Completion A * World * list Event).

Definition ret {A} (a : A) : M A := fun w => Some (Normal a, w, []).

Definition bind {A B} (m : M A) (k : A -> M B) : M B :=
  fun w =>
    match m w with
    | Some (Normal a, w1, t1) =>
        match k a w1 with
        | Some (r, w2, t2) => Some (r, w2, t1 ++ t2)
        | None => None
        end
    | Some (Throw e, w1, t1) => Some (Throw e, w1, t1)
    | None => None
    end.

Declare Scope prog_scope.
Notation "x <- c1 ;; c2" := (bind c1 (fun x => c2))
  (at level 100, c1 at next level, c2 at level 200, right associativity)
  : prog_scope.
Notation "c1 ;; c2" := (bind c1 (fun _ => c2))
  (at level 100, c2 at level 200, right associativity) : prog_scope.
Local Open Scope prog_scope.

Definition emit (ev : Event) : M unit :=
  fun w => Some (Normal tt, w, [ev]).

(** An exception that arises in the program itself. *)
Definition throw {A} (e : JsError) : M A :=
  fun w => Some (Throw e, w, [Raised e]).

(** [throw error] inside a [catch]: the exception travels on. *)
Definition rethrow {A} (e : JsError) : M A :=
  fun w => Some (Throw e, w, []).

(** [try { body } catch (e) { handler e }]. *)
Definition try_catch {A} (body : M A) (handler : JsError -> M A) : M A :=
  fun w =>
    match body w with
    | Some (Throw e, w1, t1) =>
        match handler e w1 with
        | Some (r, w2, t2) => Some (r, w2, t1 ++ t2)
        | None => None
        end
    | r => r
    end.

(** [await call]: the call is made, the world moves on, and a rejection
    becomes an exception. *)
Definition await {A} (ev : Event) (call : World -> Completion A * World) : M A :=
  fun w =>
    match call w with
    | (Normal a, w1) => Some (Normal a, w1, [ev])
    | (Throw e, w1) => Some (Throw e, w1, [ev; Raised e])
    end.

Definition logger_info (bindings : list LogField) (msg : jsstring) : M unit :=
  emit (Log level_info bindings msg).

Definition logger_warn (bindings : list LogField) (msg : jsstring) : M unit :=
  emit (Log level_warn bindings msg).

Definition logger_error (bindings : list LogField) (msg : jsstring) : M unit :=
  emit (Log level_error bindings msg).

(** Reading a property of something that is [undefined]. *)
Definition readOf {A} (what : string) (o : option A) : M A :=
  match o with
  | Some a => ret a
  | None => throw (TypeError (lit "Cannot read properties of undefined (reading '"
                               ++ lit what ++ lit "')"))
  end.

(** [c.context?.org?.dataApi]. *)
Definition dataApiOf (c : Client) : option DataApi :=
  match context c with
  | Some ctx => match org ctx with
                | Some o => dataApi o
                | None => None
                end
  | None => None
  end.

(** *** [queryAll] *)

(** The [while (!result.done && result.nextRecordsUrl)] loop; [fuel] bounds
    the number of [queryMore] calls. *)
Fixpoint queryMoreLoop (fuel : nat) (api : DataApi) (result : QueryResult)
    (allRecords : list SObject) : M (list SObject) :=
  if negb (done result) && truthyVal (nextRecordsUrl result) then
    match fuel with
    | O => fun _ => None
    | S fuel' =>
        result' <- await (QueryMore result) (queryMore api result) ;;
        queryMoreLoop fuel' api result' (allRecords ++ records result')
    end
  else ret allRecords.

Definition queryAll (fuel : nat) (soql : jsstring) (sfContext : Client)
    : M (list SObject) :=
  try_catch
    (match dataApiOf sfContext with
     | None => throw (Error (lit "No dataApi available in sfContext"))
     | Some api =>
         result <- await (Query soql) (query api soql) ;;
         queryMoreLoop fuel api result ([] ++ records result)
     end)
    (fun error =>
       logger_error [LErr "err" error; LStr "soql" soql]
         (lit "Error during queryAll execution") ;;
       rethrow error).

(** *** [mockProvisionCall] *)

Record ProvisionCall : Type := {
  pc_jobId : jsstring;
  pc_opportunityId : Val;
  pc_lineItemId : Val;
  pc_productLabel : Val;
  pc_counter : nat;
  pc_provisioningParameters : gmap jsstring Val
}.

Definition formatTimestamp : M jsstring :=
  fun w => let '(t, w1) := formatNow w in Some (Normal t, w1, [FormatDate t]).

Definition mockProvisionCall (c : ProvisionCall) : M ServiceResult :=
  emit (SetTimeout 10000) ;;
  timestamp <- formatTimestamp ;;
  let tier := orElse (parameter (pc_provisioningParameters c) "DefaultTier")
                     (Some (lit "Standard")) in
  let region := orElse (parameter (pc_provisioningParameters c) "Region")
                       (Some (lit "US")) in
  let compliance := orElse (parameter (pc_provisioningParameters c) "Compliance")
                           (Some (lit "General")) in
  ret {| serviceId := makeServiceId (pc_jobId c) (pc_counter c);
         opportunityId := pc_opportunityId c;
         lineItemId := pc_lineItemId c;
         productReference := pc_productLabel c;
         status := lit "Provisioned";
         message := lit "Provisioned service for product " ++ toStr (pc_productLabel c)
                    ++ lit " at " ++ timestamp ++ lit " UTC (" ++ toStr tier
                    ++ lit ", " ++ toStr region ++ lit ", Compliance: "
                    ++ toStr compliance ++ lit ")" |}.

(** *** [provisionServices] *)

(** The inner [for (const oliSObject of lineItemsResult.records)] loop.
    [globalServiceCounter] and [services] are the two variables it
    updates. *)
Fixpoint forEachLineItem (jobId : jsstring) (oppId : Val)
    (provisioningParameters : gmap jsstring Val)
    (lineItems : list LineItemSObject)
    (globalServiceCounter : nat) (services : list ServiceResult)
    : M (nat * list ServiceResult) :=
  match lineItems with
  | [] => ret (globalServiceCounter, services)
  | oliSObject :: rest =>
      oli <- readOf "Id" (li_fields oliSObject) ;;
      let lineItemId := orElse (f_Id oli) (f_id (li_own oliSObject)) in
      let productLabel := productLabelOf oli in
      let globalServiceCounter := (globalServiceCounter + 1)%nat in
      mockResult <- mockProvisionCall
        {| pc_jobId := jobId;
           pc_opportunityId := oppId;
           pc_lineItemId := lineItemId;
           pc_productLabel := productLabel;
           pc_counter := globalServiceCounter;
           pc_provisioningParameters := provisioningParameters |} ;;
      logger_info [LStr "jobId" jobId; LVal "opportunityId" oppId;
                   LVal "lineItemId" lineItemId; LVal "product" productLabel;
                   LStr "serviceId" (serviceId mockResult)]
        (lit "Provisioned mock service for opportunity line item.") ;;
      forEachLineItem jobId oppId provisioningParameters rest
        globalServiceCounter (services ++ [mockResult])
  end.

(** [oppSObject.subQueryResults?.OpportunityLineItems?.records]. *)
Definition lineItemRecords (oppSObject : SObject) : option (list LineItemSObject) :=
  match subQueryResults oppSObject with
  | Some sq => match OpportunityLineItems sq with
               | Some lineItemsResult => sq_records lineItemsResult
               | None => None
               end
  | None => None
  end.

(** The outer [for (const oppSObject of opportunities)] loop. *)
Fixpoint forEachOpportunity (jobId : jsstring)
    (provisioningParameters : gmap jsstring Val)
    (opportunities : list SObject)
    (globalServiceCounter : nat) (services : list ServiceResult)
    : M (nat * list ServiceResult) :=
  match opportunities with
  | [] => ret (globalServiceCounter, services)
  | oppSObject :: rest =>
      opp <- readOf "Id" (so_fields oppSObject) ;;
      let oppId := orElse (f_Id opp) (f_id opp) in
      match lineItemRecords oppSObject with
      | None =>
          forEachOpportunity jobId provisioningParameters rest
            globalServiceCounter services
      | Some lineItems =>
          r <- forEachLineItem jobId oppId provisioningParameters lineItems
                 globalServiceCounter services ;;
          forEachOpportunity jobId provisioningParameters rest (fst r) (snd r)
      end
  end.

Definition isArray (v : JsValue) : bool :=
  match v with
  | JArray _ => true
  | _ => false
  end.

(** The elements of an array value. *)
Definition elements (v : JsValue) : list JsValue :=
  match v with
  | JArray items => items
  | _ => []
  end.

(** The body of the outer [try] of [provisionServices]. *)
Definition provisionBatch (fuel : nat) (jobId : jsstring)
    (opportunityIds : JsValue) (client : option Client) (callbackUrl : JsValue)
    : M unit :=
  client' <- match client with
             | Some c => ret c
             | None => throw (TypeError (lit "Cannot destructure property 'context' of 'client' as it is undefined."))
             end ;;
  context' <- readOf "org" (context client') ;;
  org' <- readOf "dataApi" (org context') ;;
  match dataApi org' with
  | None =>
      logger_error []
        (lit "Failed to get valid Salesforce context for provisioning job " ++ jobId)
  | Some dataApi' =>
      paramResult <- await (Query paramQuery) (query dataApi' paramQuery) ;;
      let provisioningParameters := reduceParameters (records paramResult) in
      let opportunityIdList := opportunityIdList (elements opportunityIds) in
      opportunities <- queryAll fuel (oppQuery opportunityIdList)
                         {| context := Some {| org := Some org' |} |} ;;
      logger_info []
        (lit "Processing " ++ numberToString (length opportunities)
         ++ lit " Opportunities for provisioning") ;;
      r <- forEachOpportunity jobId provisioningParameters opportunities 0%nat [] ;;
      let services := snd r in
      if (length services =? 0)%nat then
        logger_warn []
          (lit "No services were generated for provisioning job " ++ jobId ++ lit ".")
      else
        let summary := jobSummary services in
        logger_info []
          (lit "Provisioning job " ++ jobId ++ lit " completed. "
           ++ numberToString (succeeded summary) ++ lit " services provisioned.") ;;
        if negb (truthy callbackUrl) then
          logger_warn []
            (lit "No callbackUrl provided for provisioning job " ++ jobId
             ++ lit ", skipping callback execution")
        else
          try_catch
            (let callbackResults :=
               {| cb_jobId := jobId;
                  cb_opportunityIds := opportunityIds;
                  cb_services := services;
                  cb_summary := summary;
                  cb_status := lit "completed";
                  cb_errors := [] |} in
             let requestOptions :=
               {| method := lit "POST";
                  headers := [(lit "Content-Type", lit "application/json")];
                  body := callbackResults |} in
             await (Request callbackUrl requestOptions)
                   (request org' callbackUrl requestOptions) ;;
             logger_info []
               (lit "Provisioning callback executed successfully for Job ID: "
                ++ jobId ++ lit ". Services returned: "
                ++ numberToString (length services)))
            (fun callbackError =>
               logger_error [LErr "err" callbackError; LStr "jobId" jobId]
                 (lit "Failed to execute provisioning callback for Job ID: " ++ jobId))
  end.

Definition provisionServices (fuel : nat) (jobId : jsstring)
    (opportunityIds : JsValue) (client : option Client) (callbackUrl : JsValue)
    : M unit :=
  if negb (truthy opportunityIds) || negb (isArray opportunityIds)
     || (length (elements opportunityIds) =? 0)%nat then
    logger_warn [] (lit "No opportunityIds provided for Job ID: " ++ jobId)
  else
    logger_info []
      (lit "Processing provisioning job " ++ jobId ++ lit " for "
       ++ numberToString (length (elements opportunityIds)) ++ lit " opportunity IDs") ;;
    try_catch
      (provisionBatch fuel jobId opportunityIds client callbackUrl)
      (fun error =>
         logger_error [LErr "err" error]
           (lit "Error executing provisioning batch for Job ID: " ++ jobId)).

(** ** The submission endpoint *)

(** [request.body] as the handler destructures it, after the validator
    has passed it (and converted it, where it does): a property that is
    not there reads as [undefined]. *)
Record Body : Type := {
  opportunityIds : JsValue;
  callbackUrl : JsValue
}.

Record HttpRequest : Type := {
  req_body : Body;
  salesforce : option Client
}.

Definition reply (code : nat) (payload : ReplyPayload) : M unit :=
  emit (Reply code payload).

(** [setImmediate(async () => ...)]: the closure is queued. *)
Definition setImmediate (job : Job) : M unit := emit (SetImmediate job).

Definition randomUUID : M jsstring :=
  fun w => let '(u, w1) := crypto_randomUUID w in Some (Normal u, w1, [RandomUUID u]).

(** [!client || !client.context || !client.context.org ||
    !client.context.org.dataApi]. *)
Definition contextMissing (client : option Client) : bool :=
  match client with
  | Some c => match dataApiOf c with
              | Some _ => false
              | None => true
              end
  | None => true
  end.

(** The handler of [POST /provisionServices]. *)
Definition handler (req : HttpRequest) : M unit :=
  let opportunityIds := opportunityIds (req_body req) in
  let callbackUrl := callbackUrl (req_body req) in
  jobId <- randomUUID ;;
  let client := salesforce req in
  if contextMissing client then
    logger_error [] (lit "Salesforce context not available in request") ;;
    reply 401 (ReplyError (lit "Salesforce context required. Ensure x-client-context header is present."))
  else
    reply 201 (ReplyJob jobId) ;;
    setImmediate {| job_jobId := jobId;
                    job_opportunityIds := opportunityIds;
                    job_client := client;
                    job_callbackUrl := callbackUrl |}.

(** The closure queued by the handler, when the event loop runs it. *)
Definition immediateTask (fuel : nat) (job : Job) : M unit :=
  try_catch
    (provisionServices fuel (job_jobId job) (job_opportunityIds job)
       (job_client job) (job_callbackUrl job))
    (fun error =>
       logger_error [LErr "err" error; LStr "jobId" (job_jobId job)]
         (lit "Error processing provisioning job")).

(** The body as it arrives, parsed: a property is there or not. *)
Record RawBody : Type := {
  raw_opportunityIds : option JsValue;
  raw_callbackUrl : option JsValue
}.

Definition isString (v : JsValue) : bool :=
  match v with
  | JString _ => true
  | _ => false
  end.

(** The bodies that conform to [ProvisionServicesRequestSchema] as they
    are: [opportunityIds] is there and is an array of strings (no minimum
    length is declared); [callbackUrl], when there, is a string.  The
    validator leaves such a body as it is. *)
Definition ProvisionServicesRequestSchema (b : RawBody) : bool :=
  match raw_opportunityIds b with
  | Some (JArray items) => forallb isString items
  | _ => false
  end
  && match raw_callbackUrl b with
     | None | Some (JString _) => true
     | Some _ => false
     end.

(** The body that the handler receives for a body that conforms as it
    is: the same properties, unchanged. *)
Definition parsedBody (b : RawBody) : Body :=
  {| opportunityIds := default JUndefined (raw_opportunityIds b);
     callbackUrl := default JUndefined (raw_callbackUrl b) |}.

(** The route, as far as the schema settles it.  The framework validates
    the body against the schema of the route before it calls the handler.
    A body that conforms as it is reaches the handler unchanged.  A body
    without [opportunityIds] cannot conform, whatever else it holds: the
    framework answers 400 itself and the handler is not called.  For any
    other body (a value of another type where the schema asks for an array
    or for a string) the outcome is decided by the validator of the
    framework, which in its default settings converts values from one type
    to another before it rejects a body, and passes the converted body on;
    the validator is not part of this repository and the route is left
    undecided there. *)
Definition postProvisionServices (b : RawBody) (sf : option Client) : M unit :=
  if ProvisionServicesRequestSchema b then
    handler {| req_body := parsedBody b; salesforce := sf |}
  else
    match raw_opportunityIds b with
    | None => reply 400 (ReplyError (lit "Bad Request"))
    | Some _ => fun _ => None
    end.

End Program.

Arguments DataApi World : clear implicits.
Arguments Org World : clear implicits.
Arguments OrgContext World : clear implicits.
Arguments Client World : clear implicits.
Arguments Job World : clear implicits.
Arguments Event World : clear implicits.
Arguments HttpRequest World : clear implicits.
Arguments M World A : clear implicits.

(** ** What is observed of a run *)

Section Observations.

Context {World : Type}.

Local Abbreviation Trace := (list (Event World)).

(** Every run of [m] that ends satisfies [Post]. *)
Definition ensures {A} (m : M World A) (Post : Completion A -> Trace -> Prop) : Prop :=
  forall w r w' t, m w = Some (r, w', t) -> Post r t.

(** [m] ends from every state of the world. *)
Definition returns {A} (m : M World A) : Prop := forall w, is_Some (m w).

(** A run, with the events [evs] in front of its own. *)
Definition after {A} (evs : Trace) (run : option (Completion A * World * Trace))
    : option (Completion A * World * Trace) :=
  match run with
  | Some (r, w, t) => Some (r, w, evs ++ t)
  | None => None
  end.

Definition is_log (ev : Event World) : bool :=
  match ev with
  | Log _ _ _ => true
  | _ => false
  end.

(** The callback calls of a run, in order. *)
Definition requestOf (ev : Event World) : option (JsValue * RequestOptions) :=
  match ev with
  | Request url options => Some (url, options)
  | _ => None
  end.

Definition requests (t : Trace) : list (JsValue * RequestOptions) :=
  omap requestOf t.

(** The queries of a run, in order. *)
Definition queryOf (ev : Event World) : option jsstring :=
  match ev with
  | Query soql => Some soql
  | _ => None
  end.

Definition queries (t : Trace) : list jsstring := omap queryOf t.

Fixpoint bindingStr (key : string) (bindings : list LogField) : option jsstring :=
  match bindings with
  | LStr k s :: rest => if String.eqb k key then Some s else bindingStr key rest
  | _ :: rest => bindingStr key rest
  | [] => None
  end.

(** The service identifiers the worker logs as it produces each
    ServiceResult, in order. *)
Definition loggedServiceId (ev : Event World) : option jsstring :=
  match ev with
  | Log _ bindings _ => bindingStr "serviceId" bindings
  | _ => None
  end.

Definition serviceIdsLogged (t : Trace) : list jsstring := omap loggedServiceId t.

(** A log entry names the job: the job id is bound in it, or is part of
    its message. *)
Definition mentionsJob (jobId : jsstring) (bindings : list LogField)
    (msg : jsstring) : Prop :=
  LStr "jobId" jobId ∈ bindings \/ exists p s, msg = p ++ jobId ++ s.

(** The first exception that arises in a run, with the events after it. *)
Fixpoint raisedTail (t : Trace) : option (JsError * Trace) :=
  match t with
  | [] => None
  | Raised e :: rest => Some (e, rest)
  | _ :: rest => raisedTail rest
  end.

(** No exception arises. *)
Definition quiet (t : Trace) : Prop := raisedTail t = None.

(** A run is contained when it ends normally without any exception, or
    ends with the one exception that arose, followed by logging only. *)
Definition contained {A} (r : Completion A) (t : Trace) : Prop :=
  match r with
  | Normal _ => quiet t
  | Throw e => exists logs, raisedTail t = Some (e, logs) /\ forallb is_log logs = true
  end.

(** The exception that arose, if any, was caught: only logging follows it,
    and an error entry carries it and names the job. *)
Definition caughtAndLogged (jobId : jsstring) (t : Trace) : Prop :=
  quiet t \/
  exists e logs,
    raisedTail t = Some (e, logs) /\ forallb is_log logs = true /\
    exists bindings msg,
      Log level_error bindings msg ∈ logs /\ LErr "err" e ∈ bindings /\
      mentionsJob jobId bindings msg.

Definition provisioned (sr : ServiceResult) : Prop :=
  status sr = lit "Provisioned".

(** What the two loops of the worker guarantee, from a counter value and a
    list of services: [k] new services, numbered from the counter on. *)
Definition loopPost (jobId : jsstring) (counter : nat) (services : list ServiceResult)
    (r : Completion (nat * list ServiceResult)) (t : Trace) : Prop :=
  contained r t /\ requests t = [] /\
  exists k,
    serviceIdsLogged t = map (makeServiceId jobId) (seq (S counter) k) /\
    match r with
    | Normal (counter', services') =>
        counter' = (counter + k)%nat /\
        exists new,
          services' = services ++ new /\
          map serviceId new = map (makeServiceId jobId) (seq (S counter) k) /\
          Forall provisioned new
    | Throw _ => True
    end.

(** The payload of a completed job with services [svcs]. *)
Definition completedPayload (jobId : jsstring) (opportunityIds : JsValue)
    (svcs : list ServiceResult) (p : CallbackPayload) : Prop :=
  cb_jobId p = jobId /\ cb_opportunityIds p = opportunityIds /\
  cb_services p = svcs /\
  cb_summary p = jobSummary svcs /\
  cb_status p = lit "completed" /\ cb_errors p = [].

(** What a run of the worker's batch guarantees about services and the
    callback: [k] services were produced and logged, numbered 1 to [k];
    the callback is called at most once, with all of them, and only when
    there is one at least. *)
Definition deliveryPost (jobId : jsstring) (opportunityIds callbackUrl : JsValue)
    (t : Trace) : Prop :=
  exists k,
    serviceIdsLogged t = map (makeServiceId jobId) (seq 1 k) /\
    (requests t = [] \/
     exists svcs options,
       requests t = [(callbackUrl, options)] /\
       k <> 0%nat /\
       completedPayload jobId opportunityIds svcs (body options) /\
       map serviceId svcs = map (makeServiceId jobId) (seq 1 k) /\
       Forall provisioned svcs).

(** The services handed to each callback call of a run. *)
Definition delivered (t : Trace) : list (JsValue * list ServiceResult) :=
  map (fun ro => (fst ro, cb_services (body (snd ro)))) (requests t).

(** What a job is seen to do with records: the queries it sends, the
    services it logs, the services it delivers. *)
Definition observed (t : Trace)
    : list jsstring * list jsstring * list (JsValue * list ServiceResult) :=
  (queries t, serviceIdsLogged t, delivered t).

(** Two runs are seen to do the same. *)
Definition sameJob {A} (run1 run2 : option (Completion A * World * Trace)) : Prop :=
  match run1, run2 with
  | Some (_, _, t1), Some (_, _, t2) => observed t1 = observed t2
  | None, None => True
  | _, _ => False
  end.

(** A stretch of a run that neither calls back nor produces a service. *)
Definition silent (t : Trace) : Prop :=
  requests t = [] /\ serviceIdsLogged t = [].

(** What [queryAll] guarantees. *)
Definition queryPost {A} (r : Completion A) (t : Trace) : Prop :=
  contained r t /\ silent t.

(** What the body of the worker's outer [try] guarantees. *)
Definition batchPost (jobId : jsstring) (opportunityIds callbackUrl : JsValue)
    (r : Completion unit) (t : Trace) : Prop :=
  match r with
  | Normal _ => caughtAndLogged jobId t
  | Throw e => contained r t
  end /\ deliveryPost jobId opportunityIds callbackUrl t.

(** What the worker guarantees. *)
Definition workerPost (jobId : jsstring) (opportunityIds callbackUrl : JsValue)
    (r : Completion unit) (t : Trace) : Prop :=
  r = Normal tt /\ caughtAndLogged jobId t /\
  deliveryPost jobId opportunityIds callbackUrl t.


(** The pages a data source serves after [p]: each page that reports more
    ([done] false, with a continuation token) is followed by the answer to
    [queryMore], up to a page that reports completion. *)
Inductive Pages (api : DataApi World)
    : QueryResult -> World -> list QueryResult -> World -> Prop :=
| Pages_done (p : QueryResult) (w : World) :
    done p = true -> Pages api p w [] w
| Pages_more (p : QueryResult) (w : World) (p' : QueryResult) (w' : World)
    (ps : list QueryResult) (w'' : World) :
    done p = false ->
    truthyVal (nextRecordsUrl p) = true ->
    queryMore api p w = (Normal p', w') ->
    Pages api p' w' ps w'' ->
    Pages api p w (p' :: ps) w''.

End Observations.

(** ** Concrete worlds

    A small deployment used to run the program on explicit inputs: the
    state of the world counts the calls made to the outside. *)
Module Fixture.

Definition World : Type := nat.

Definition jobId : jsstring := lit "3b241101-e2bb-4255-8caf-4136c566a962".

(** The identifiers handed out by the generator: a different one in each
    state of the world, [jobId] in the first. *)
Definition uuidOf (w : World) : jsstring :=
  lit "3b241101-e2bb-4255-8caf-4136c566a9" ++ numberToString (62 + w).

Definition crypto_randomUUID (w : World) : jsstring * World := (uuidOf w, S w).

Definition formatNow (w : World) : jsstring * World :=
  (lit "Nov 02, 2026, 08:11:00 AM", S w).

Definition noFields : Fields :=
  {| f_Id := None; f_id := None; f_Name__c := None; f_Value__c := None;
     f_Product2 := None; f_Product2Id := None |}.

Definition idFields (i : string) : Fields :=
  {| f_Id := Some (lit i); f_id := None; f_Name__c := None; f_Value__c := None;
     f_Product2 := None; f_Product2Id := None |}.

Definition lineItem (i product : string) : LineItemSObject :=
  {| li_fields :=
       Some {| f_Id := Some (lit i); f_id := None; f_Name__c := None;
               f_Value__c := None;
               f_Product2 := Some {| p2_fields := Some {| p2f_Name := Some (lit product) |};
                                     p2_Name := None |};
               f_Product2Id := Some (lit "01t000000000001AAA") |};
     li_own := noFields |}.

Definition opportunity (i : string) (children : option (list LineItemSObject)) : SObject :=
  {| so_fields := Some (idFields i);
     so_own := noFields;
     subQueryResults :=
       Some {| OpportunityLineItems := Some {| sq_records := children |} |} |}.

Definition parameterRecord (name value : string) : SObject :=
  {| so_fields :=
       Some {| f_Id := None; f_id := None; f_Name__c := Some (lit name);
               f_Value__c := Some (lit value); f_Product2 := None;
               f_Product2Id := None |};
     so_own := noFields;
     subQueryResults := None |}.

Definition lastPage (rs : list SObject) : QueryResult :=
  {| records := rs; done := true; nextRecordsUrl := None |}.

Definition morePage (rs : list SObject) (next : string) : QueryResult :=
  {| records := rs; done := false; nextRecordsUrl := Some (lit next) |}.

Definition unavailable : JsError := Error (lit "503 Service Unavailable").

Definition parent1 : SObject :=
  opportunity "006000000000001AAA"
    (Some [lineItem "00k000000000001AAA" "Cloud Storage";
           lineItem "00k000000000002AAA" "Support Plan"]).

Definition parent2 : SObject := opportunity "006000000000002AAA" None.

Definition parent3 : SObject :=
  opportunity "006000000000003AAA" (Some [lineItem "00k000000000003AAA" "Backup"]).

(** A data source that answers the parameter query with [params] and
    every other query with the pages [first], [second], [third]. *)
Definition pagedApi (params : Completion QueryResult)
    (first second third : QueryResult) : DataApi World :=
  {| query := fun soql w =>
       if bool_decide (soql = paramQuery) then (params, S w)
       else (Normal first, S w);
     queryMore := fun previous w =>
       if bool_decide (nextRecordsUrl previous = Some (lit "/next/2"))
       then (Normal second, S w)
       else if bool_decide (nextRecordsUrl previous = Some (lit "/next/3"))
       then (Normal third, S w)
       else (Throw unavailable, S w) |}.

(** An org whose callback sink answers every call with [callback]. *)
Definition orgOf (api : DataApi World) (callback : Completion unit) : Org World :=
  {| dataApi := Some api;
     request := fun _ _ w => (callback, S w) |}.

Definition contextOf (api : DataApi World) (callback : Completion unit)
    : OrgContext World :=
  {| org := Some (orgOf api callback) |}.

Definition clientOf (api : DataApi World) (callback : Completion unit) : Client World :=
  {| context := Some (contextOf api callback) |}.

Definition noParameters : Completion QueryResult := Normal (lastPage []).

Definition someParameters : Completion QueryResult :=
  Normal (lastPage [parameterRecord "DefaultTier" "Premium";
                    parameterRecord "Region" "EU"]).

(** One parent with two children, on a single page. *)
Definition simpleApi (params : Completion QueryResult) : DataApi World :=
  pagedApi params (lastPage [parent1]) (lastPage []) (lastPage []).

(** Three pages. *)
Definition threePagesApi : DataApi World :=
  pagedApi noParameters (morePage [parent1] "/next/2")
    (morePage [parent2] "/next/3") (lastPage [parent3]).


Definition callbackUrl : JsValue := JString (lit "https://example.test/cb").

Definition requestedIds : JsValue := JArray [JString (lit "006000000000001AAA")].

Definition traceOf {A} (run : option (Completion A * World * list (Event World)))
    : list (Event World) :=
  match run with
  | Some (_, _, t) => t
  | None => []
  end.

(** A job that runs to the callback. *)
Definition completedTrace : list (Event World) :=
  traceOf (provisionServices formatNow 0 jobId requestedIds
             (Some (clientOf (simpleApi someParameters) (Normal tt)))
             callbackUrl 0%nat).

Definition noOptions : RequestOptions :=
  {| method := []; headers := [];
     body := {| cb_jobId := []; cb_opportunityIds := JUndefined;
                cb_services := [];
                cb_summary := {| total := 0; succeeded := 0; failed := 0 |};
                cb_status := []; cb_errors := [] |} |}.

(** The options of the callback call of that job. *)
Definition deliveredOptions : RequestOptions :=
  match requests completedTrace with
  | (_, options) :: _ => options
  | [] => noOptions
  end.

(** The closure of the same job when the callback sink rejects the call. *)
Definition rejectedJob : Job World :=
  {| job_jobId := jobId;
     job_opportunityIds := requestedIds;
     job_client := Some (clientOf (simpleApi someParameters) (Throw unavailable));
     job_callbackUrl := callbackUrl |}.

(** The same job when the callback sink rejects the call. *)
Definition undeliveredTrace : list (Event World) :=
  traceOf (provisionServices formatNow 0 jobId requestedIds
             (Some (clientOf (simpleApi someParameters) (Throw unavailable)))
             callbackUrl 0%nat).

End Fixture.

(** ** Further vocabulary

    What the remaining properties of the worker, of the configuration and
    of the class extractor are stated with. *)

(** [record.fields || record], as [reduce] reads a parameter record. *)
Definition parameterFields (record : SObject) : Fields :=
  match so_fields record with
  | Some f => f
  | None => so_own record
  end.


(** The names under which [mockProvisionCall] reads the parameters. *)
Definition parameterNames : list string :=
  ["DefaultTier"; "Region"; "Compliance"]%string.

(** A character allowed in the id list of the query: alphanumeric, the
    quote around an id, the comma between two ids. *)
Definition idListChar (c : N) : bool :=
  isAlnum c || (c =? 39) || (c =? 44).


(** The child records of a fetched parent, as the inner loop goes through
    them: none when the sub-query result or its records are missing. *)
Definition childrenOf (oppSObject : SObject) : list LineItemSObject :=
  default [] (lineItemRecords oppSObject).

(** The child records of the fetched parents, each with its parent, in
    the order in which the two loops reach them. *)
Definition workItems (opportunities : list SObject)
    : list (SObject * LineItemSObject) :=
  concat (map (fun o => map (pair o) (childrenOf o)) opportunities).

(** [sr] is the ServiceResult of the child [snd item] of the parent
    [fst item], produced with counter value [n]. *)
Definition resultFor (jobId : jsstring) (n : nat)
    (item : SObject * LineItemSObject) (sr : ServiceResult) : Prop :=
  exists opp oli,
    so_fields (fst item) = Some opp /\ li_fields (snd item) = Some oli /\
    serviceId sr = makeServiceId jobId n /\
    opportunityId sr = orElse (f_Id opp) (f_id opp) /\
    lineItemId sr = orElse (f_Id oli) (f_id (li_own (snd item))) /\
    productReference sr = productLabelOf oli /\
    status sr = lit "Provisioned".

(** The services [svcs] are the results of the items, one for one and in
    order, with counter values [n], [n + 1], ... *)
Fixpoint resultsFor (jobId : jsstring) (n : nat)
    (items : list (SObject * LineItemSObject)) (svcs : list ServiceResult) : Prop :=
  match items, svcs with
  | [], [] => True
  | item :: items', sr :: svcs' =>
      resultFor jobId n item sr /\ resultsFor jobId (S n) items' svcs'
  | _, _ => False
  end.

(** A fetched parent the loops cannot read: it has no [fields], or one of
    its children has none. *)
Definition unreadable (oppSObject : SObject) : Prop :=
  so_fields oppSObject = None \/
  Exists (fun oli => li_fields oli = None) (childrenOf oppSObject).

(** ** The extractor of generated classes

    [className.replace(/[^a-zA-Z0-9_]/g, '_')]: the name of the file a
    downloaded class is saved under, before [.cls] is appended.  The
    pattern has no [u] flag: it goes through the UTF-16 code units. *)
Definition fileNameChar (c : N) : bool := isAlnum c || (c =? 95).

Definition filename (className : jsstring) : jsstring :=
  map (fun c => if fileNameChar c then c else 95) className.

(** A fetched parent the loops can read, with all its children. *)
Definition readable (oppSObject : SObject) : Prop :=
  is_Some (so_fields oppSObject) /\
  Forall (fun oli => is_Some (li_fields oli)) (childrenOf oppSObject).

Section FurtherObservations.

Context {World : Type}.

Local Abbreviation Trace := (list (Event World)).

(** The timers a run sets, in order. *)
Definition timerOf (ev : Event World) : option N :=
  match ev with
  | SetTimeout ms => Some ms
  | _ => None
  end.

Definition timers (t : Trace) : list N := omap timerOf t.



(** The replies of a run and the jobs it queues, in order. *)
Definition replyOf (ev : Event World) : option (nat * ReplyPayload) :=
  match ev with
  | Reply code payload => Some (code, payload)
  | _ => None
  end.

Definition replies (t : Trace) : list (nat * ReplyPayload) := omap replyOf t.

Definition queuedOf (ev : Event World) : option (Job World) :=
  match ev with
  | SetImmediate job => Some job
  | _ => None
  end.

Definition queued (t : Trace) : list (Job World) := omap queuedOf t.

(** What the loops guarantee when they complete, from a counter value and
    a list of services, over the items they go through. *)
Definition itemsPost (jobId : jsstring) (counter : nat) (services : list ServiceResult)
    (items : list (SObject * LineItemSObject))
    (r : Completion (nat * list ServiceResult)) (t : Trace) : Prop :=
  match r with
  | Normal (counter', services') =>
      counter' = (counter + length items)%nat /\
      timers t = replicate (length items) 10000 /\
      exists new,
        services' = services ++ new /\
        resultsFor jobId (S counter) items new
  | Throw _ => True
  end.

(** The pages a fetch goes through after [p]: each page that makes the
    loop go on is followed by the answer to [queryMore], up to the first
    page that ends the loop, because it reports completion or because it
    carries no continuation token. *)
Inductive Fetched (api : DataApi World)
    : QueryResult -> World -> list QueryResult -> World -> Prop :=
| Fetched_stop (p : QueryResult) (w : World) :
    negb (done p) && truthyVal (nextRecordsUrl p) = false ->
    Fetched api p w [] w
| Fetched_more (p : QueryResult) (w : World) (p' : QueryResult) (w' : World)
    (ps : list QueryResult) (w'' : World) :
    negb (done p) && truthyVal (nextRecordsUrl p) = true ->
    queryMore api p w = (Normal p', w') ->
    Fetched api p' w' ps w'' ->
    Fetched api p w (p' :: ps) w''.

End FurtherObservations.

(** ** More concrete worlds *)
Module Sample.

(** The loops over three parents: two children, none, one. *)
Definition loopRun
    : option (Completion (nat * list ServiceResult) * Fixture.World
              * list (Event Fixture.World)) :=
  forEachOpportunity Fixture.formatNow Fixture.jobId ∅
    [Fixture.parent1; Fixture.parent2; Fixture.parent3] 0 [] 0%nat.

Definition loopServices : list ServiceResult :=
  match loopRun with
  | Some (Normal (_, services), _, _) => services
  | _ => []
  end.

Definition loopTrace : list (Event Fixture.World) := Fixture.traceOf loopRun.

(** A page that reports more but carries no continuation token. *)
Definition danglingPage (rs : list SObject) : QueryResult :=
  {| records := rs; done := false; nextRecordsUrl := None |}.

(** A data source whose second page is such a page. *)
Definition truncatedApi : DataApi Fixture.World :=
  Fixture.pagedApi Fixture.noParameters
    (Fixture.morePage [Fixture.parent1] "/next/2")
    (danglingPage [Fixture.parent2]) (Fixture.lastPage [Fixture.parent3]).

(** A data source whose first page points to a page it cannot serve. *)
Definition brokenApi : DataApi Fixture.World :=
  Fixture.pagedApi Fixture.noParameters
    (Fixture.morePage [Fixture.parent1] "/next/9")
    (Fixture.lastPage []) (Fixture.lastPage []).

(** A parent without [fields]. *)
Definition brokenParent : SObject :=
  {| so_fields := None; so_own := Fixture.idFields "006000000000009AAA";
     subQueryResults := None |}.

(** A data source that serves a readable parent with two children, then
    an unreadable one. *)
Definition unreadableApi : DataApi Fixture.World :=
  Fixture.pagedApi Fixture.noParameters
    (Fixture.lastPage [Fixture.parent1; brokenParent])
    (Fixture.lastPage []) (Fixture.lastPage []).

(** A data source that answers the parameter query and rejects every
    other query. *)
Definition rejectingApi : DataApi Fixture.World :=
  {| query := fun soql w =>
       if bool_decide (soql = paramQuery) then (Fixture.noParameters, S w)
       else (Throw Fixture.unavailable, S w);
     queryMore := fun _ w => (Throw Fixture.unavailable, S w) |}.


(** The job whose only id is not a Salesforce id. *)
Definition rejectedIdsRun
    : option (Completion unit * Fixture.World * list (Event Fixture.World)) :=
  provisionServices Fixture.formatNow 0 Fixture.jobId
    (JArray [JString (lit "not an id")])
    (Some (Fixture.clientOf (Fixture.simpleApi Fixture.noParameters) (Normal tt)))
    Fixture.callbackUrl 0%nat.

(** The record query of the job of [Fixture.requestedIds]. *)
Definition requestedQuery : jsstring :=
  oppQuery (opportunityIdList [JString (lit "006000000000001AAA")]).

(** The fetch of the records by a client of [api], after the parameter
    query. *)
Definition recordFetch (api : DataApi Fixture.World)
    : option (Completion (list SObject) * Fixture.World * list (Event Fixture.World)) :=
  queryAll 0 requestedQuery
    {| context := Some {| org := Some (Fixture.orgOf api (Normal tt)) |} |} 1%nat.

(** A request for [Fixture.requestedIds] with a callback address, as it
    reaches the handler. *)
Definition submission : HttpRequest Fixture.World :=
  {| req_body := {| opportunityIds := Fixture.requestedIds;
                    callbackUrl := Fixture.callbackUrl |};
     salesforce :=
       Some (Fixture.clientOf (Fixture.simpleApi Fixture.someParameters) (Normal tt)) |}.

Definition submissionRun
    : option (Completion unit * Fixture.World * list (Event Fixture.World)) :=
  handler Fixture.crypto_randomUUID submission 0%nat.

(** The job that this submission queues. *)
Definition submittedJob : Job Fixture.World :=
  {| job_jobId := Fixture.jobId;
     job_opportunityIds := Fixture.requestedIds;
     job_client :=
       Some (Fixture.clientOf (Fixture.simpleApi Fixture.someParameters) (Normal tt));
     job_callbackUrl := Fixture.callbackUrl |}.

Definition submittedJobRun
    : option (Completion unit * Fixture.World * list (Event Fixture.World)) :=
  immediateTask Fixture.formatNow 0 submittedJob 7%nat.

End Sample.

(** * Properties *)

(** ** Strings and identifiers *)

Lemma digits_inj (d1 d2 : Decimal.uint) : digits d1 = digits d2 -> d1 = d2.
Proof.
  revert d2; induction d1; intros [] H; simpl in H;
    try discriminate; try reflexivity;
    injection H as H; f_equal; auto.
Qed.

Lemma numberToString_inj (n m : nat) :
  numberToString n = numberToString m -> n = m.
Proof.
  unfold numberToString; intros H.
  apply digits_inj in H.
  rewrite <- (DecimalNat.Unsigned.of_to n), <- (DecimalNat.Unsigned.of_to m).
  now rewrite H.
Qed.

Lemma makeServiceId_inj (jobId : jsstring) (n m : nat) :
  makeServiceId jobId n = makeServiceId jobId m -> n = m.
Proof.
  unfold makeServiceId; intros H.
  repeat (apply app_inv_head in H).
  now apply numberToString_inj.
Qed.

Lemma NoDup_makeServiceId (jobId : jsstring) (start k : nat) :
  NoDup (map (makeServiceId jobId) (seq start k)).
Proof.
  apply NoDup_fmap_2.
  - intros n m; apply makeServiceId_inj.
  - apply NoDup_seq.
Qed.

Lemma sanitizedIds_app (l1 l2 : list JsValue) :
  sanitizedIds (l1 ++ l2) = sanitizedIds l1 ++ sanitizedIds l2.
Proof.
  unfold sanitizedIds.
  now rewrite map_app, filter_app, omap_app.
Qed.

Lemma sanitizedIds_rejected (bad : JsValue) :
  sanitizeSalesforceId bad = None -> sanitizedIds [bad] = [].
Proof.
  unfold sanitizedIds; simpl; intros ->; reflexivity.
Qed.

Lemma sanitizedIds_without (l1 l2 : list JsValue) (bad : JsValue) :
  sanitizeSalesforceId bad = None ->
  sanitizedIds (l1 ++ bad :: l2) = sanitizedIds (l1 ++ l2).
Proof.
  intros H.
  change (bad :: l2) with ([bad] ++ l2).
  now rewrite !sanitizedIds_app, (sanitizedIds_rejected _ H).
Qed.

Lemma pattern_accepts (s : jsstring) :
  forallb isAlnum s = true ->
  (length s = 15 \/ length s = 18)%nat ->
  salesforceIdPattern_test s = true.
Proof.
  unfold salesforceIdPattern_test; intros -> [-> | ->]; reflexivity.
Qed.

Lemma pattern_rejects (s : jsstring) :
  forallb isAlnum s = false \/ (length s < 15)%nat \/ (18 < length s)%nat ->
  salesforceIdPattern_test s = false.
Proof.
  unfold salesforceIdPattern_test; intros [-> | [H | H]].
  - reflexivity.
  - apply Nat.leb_gt in H; rewrite H.
    now rewrite andb_false_r.
  - apply Nat.leb_gt in H; rewrite H.
    now rewrite andb_false_r.
Qed.

(** ** Reasoning about computations *)

Section Reasoning.

Context {World : Type}.

Local Abbreviation Trace := (list (Event World)).

Lemma ensures_weaken {A} (m : M World A) (P Q : Completion A -> Trace -> Prop) :
  ensures m P -> (forall r t, P r t -> Q r t) -> ensures m Q.
Proof. intros H HPQ w r w' t E. eauto. Qed.

Lemma ensures_ret {A} (a : A) (Post : Completion A -> Trace -> Prop) :
  Post (Normal a) [] -> ensures (ret a) Post.
Proof. intros H w r w' t E. injection E as <- _ <-. exact H. Qed.

Lemma ensures_emit (ev : Event World) (Post : Completion unit -> Trace -> Prop) :
  Post (Normal tt) [ev] -> ensures (emit ev) Post.
Proof. intros H w r w' t E. injection E as <- _ <-. exact H. Qed.

Lemma ensures_throw {A} (e : JsError) (Post : Completion A -> Trace -> Prop) :
  Post (Throw e) [Raised e] -> ensures (throw e) Post.
Proof. intros H w r w' t E. injection E as <- _ <-. exact H. Qed.

Lemma ensures_rethrow {A} (e : JsError) (Post : Completion A -> Trace -> Prop) :
  Post (Throw e) [] -> ensures (rethrow e) Post.
Proof. intros H w r w' t E. injection E as <- _ <-. exact H. Qed.

Lemma ensures_await {A} (ev : Event World) (call : World -> Completion A * World)
    (Post : Completion A -> Trace -> Prop) :
  (forall a, Post (Normal a) [ev]) ->
  (forall e, Post (Throw e) [ev; Raised e]) ->
  ensures (await ev call) Post.
Proof.
  intros Hn Ht w r w' t E. unfold await in E.
  destruct (call w) as [[a | e] w1]; injection E as <- _ <-; auto.
Qed.

Lemma ensures_bind {A B} (m : M World A) (k : A -> M World B)
    (Post : Completion B -> Trace -> Prop) :
  ensures m (fun r t1 =>
    match r with
    | Normal a => ensures (k a) (fun r' t2 => Post r' (t1 ++ t2))
    | Throw e => Post (Throw e) t1
    end) ->
  ensures (bind m k) Post.
Proof.
  intros H w r w' t E. unfold bind in E.
  destruct (m w) as [[[[a | e] w1] t1] |] eqn:Em; [| | discriminate].
  - specialize (H _ _ _ _ Em); simpl in H.
    destruct (k a w1) as [[[r2 w2] t2] |] eqn:Ek; [| discriminate].
    injection E as <- _ <-. exact (H _ _ _ _ Ek).
  - specialize (H _ _ _ _ Em); simpl in H.
    injection E as <- _ <-. exact H.
Qed.

Lemma ensures_try_catch {A} (body : M World A) (handler : JsError -> M World A)
    (Post : Completion A -> Trace -> Prop) :
  ensures body (fun r t1 =>
    match r with
    | Normal a => Post (Normal a) t1
    | Throw e => ensures (handler e) (fun r' t2 => Post r' (t1 ++ t2))
    end) ->
  ensures (try_catch body handler) Post.
Proof.
  intros H w r w' t E. unfold try_catch in E.
  destruct (body w) as [[[[a | e] w1] t1] |] eqn:Em; [| | discriminate].
  - specialize (H _ _ _ _ Em); simpl in H.
    injection E as <- _ <-. exact H.
  - specialize (H _ _ _ _ Em); simpl in H.
    destruct (handler e w1) as [[[r2 w2] t2] |] eqn:Ek; [| discriminate].
    injection E as <- _ <-. exact (H _ _ _ _ Ek).
Qed.

Lemma ensures_readOf {A} (what : string) (o : option A)
    (Post : Completion A -> Trace -> Prop) :
  (forall a, o = Some a -> Post (Normal a) []) ->
  (forall e, o = None -> Post (Throw e) [Raised e]) ->
  ensures (readOf what o) Post.
Proof.
  intros Hs Hn. destruct o; simpl.
  - apply ensures_ret; auto.
  - apply ensures_throw; auto.
Qed.

(** Equations for running a computation step by step. *)

Lemma bind_normal {A B} (m : M World A) (k : A -> M World B) (w w1 : World)
    (a : A) (t1 : Trace) :
  m w = Some (Normal a, w1, t1) -> bind m k w = after t1 (k a w1).
Proof. intros H. unfold bind. now rewrite H. Qed.

Lemma bind_thrown {A B} (m : M World A) (k : A -> M World B) (w w1 : World)
    (e : JsError) (t1 : Trace) :
  m w = Some (Throw e, w1, t1) -> bind m k w = Some (Throw e, w1, t1).
Proof. intros H. unfold bind. now rewrite H. Qed.

Lemma bind_ret {A B} (a : A) (k : A -> M World B) (w : World) :
  bind (ret a) k w = k a w.
Proof. unfold bind, ret. now destruct (k a w) as [[[r w2] t2] |]. Qed.

Lemma bind_emit {B} (ev : Event World) (k : unit -> M World B) (w : World) :
  bind (emit ev) k w = after [ev] (k tt w).
Proof. reflexivity. Qed.

Lemma bind_await_normal {A B} (ev : Event World)
    (call : World -> Completion A * World) (k : A -> M World B)
    (w w1 : World) (a : A) :
  call w = (Normal a, w1) -> bind (await ev call) k w = after [ev] (k a w1).
Proof. intros H. unfold bind, await. now rewrite H. Qed.

Lemma bind_await_throw {A B} (ev : Event World)
    (call : World -> Completion A * World) (k : A -> M World B)
    (w w1 : World) (e : JsError) :
  call w = (Throw e, w1) ->
  bind (await ev call) k w = Some (Throw e, w1, [ev; Raised e]).
Proof. intros H. unfold bind, await. now rewrite H. Qed.

Lemma try_catch_normal {A} (body : M World A) (handler : JsError -> M World A)
    (w w1 : World) (a : A) (t1 : Trace) :
  body w = Some (Normal a, w1, t1) ->
  try_catch body handler w = Some (Normal a, w1, t1).
Proof. intros H. unfold try_catch. now rewrite H. Qed.

Lemma try_catch_thrown {A} (body : M World A) (handler : JsError -> M World A)
    (w w1 : World) (e : JsError) (t1 : Trace) :
  body w = Some (Throw e, w1, t1) ->
  try_catch body handler w = after t1 (handler e w1).
Proof. intros H. unfold try_catch. now rewrite H. Qed.

End Reasoning.

(** ** Traces *)

Section Traces.

Context {World : Type}.

Local Abbreviation Trace := (list (Event World)).

Lemma raisedTail_app (t1 t2 : Trace) :
  raisedTail (t1 ++ t2) =
  match raisedTail t1 with
  | Some (e, rest) => Some (e, rest ++ t2)
  | None => raisedTail t2
  end.
Proof.
  induction t1 as [| ev t1 IH]; simpl; [reflexivity |].
  destruct ev; auto.
Qed.

Lemma quiet_app (t1 t2 : Trace) : quiet t1 -> quiet t2 -> quiet (t1 ++ t2).
Proof. unfold quiet; intros H1 H2. now rewrite raisedTail_app, H1. Qed.

Lemma quiet_app_inv (t1 t2 : Trace) : quiet (t1 ++ t2) -> quiet t1 /\ quiet t2.
Proof.
  unfold quiet; rewrite raisedTail_app.
  destruct (raisedTail t1) as [[e rest] |]; [discriminate | auto].
Qed.

Lemma contained_after_quiet {A} (r : Completion A) (t1 t2 : Trace) :
  quiet t1 -> contained r t2 -> contained r (t1 ++ t2).
Proof.
  intros H1; destruct r as [a | e]; simpl.
  - now apply quiet_app.
  - intros (logs & H2 & Hl). exists logs.
    now rewrite raisedTail_app, H1.
Qed.

Lemma contained_then_logs {A B} (e : JsError) (t1 t2 : Trace) :
  contained (A := A) (Throw e) t1 -> forallb is_log t2 = true ->
  contained (A := B) (Throw e) (t1 ++ t2).
Proof.
  intros (logs & H1 & Hl) H2. exists (logs ++ t2).
  rewrite raisedTail_app, H1. split; [reflexivity |].
  now rewrite forallb_app, Hl, H2.
Qed.

Lemma raisedTail_split (t : Trace) (e : JsError) (rest : Trace) :
  raisedTail t = Some (e, rest) ->
  exists t0, t = t0 ++ Raised e :: rest /\ quiet t0.
Proof.
  revert rest; induction t as [| ev t IH]; intros rest H; [discriminate |].
  destruct ev;
    try (simpl in H; destruct (IH _ H) as (t0 & -> & Hq);
         eexists (_ :: t0); split; [reflexivity | exact Hq]).
  simpl in H. injection H as -> ->. exists []. split; reflexivity.
Qed.

Lemma logs_quiet (t : Trace) : forallb is_log t = true -> quiet t.
Proof.
  induction t as [| ev t IH]; [reflexivity |].
  destruct ev; simpl; try discriminate. exact IH.
Qed.

(** In a run whose first exception is followed by logging only, that
    exception is the only one. *)
Lemma raisedTail_unique (t pre post : Trace) (e e' : JsError) (logs : Trace) :
  raisedTail t = Some (e', logs) -> forallb is_log logs = true ->
  t = pre ++ Raised e :: post ->
  e = e' /\ post = logs /\ quiet pre.
Proof.
  intros H Hl ->. rewrite raisedTail_app in H.
  destruct (raisedTail pre) as [[e0 rest] |] eqn:Hp.
  - injection H as -> <-.
    rewrite forallb_app in Hl. apply andb_prop in Hl as [_ Hl].
    discriminate.
  - simpl in H. injection H as -> ->. auto.
Qed.

Lemma requests_app (t1 t2 : Trace) : requests (t1 ++ t2) = requests t1 ++ requests t2.
Proof. apply omap_app. Qed.

Lemma serviceIdsLogged_app (t1 t2 : Trace) :
  serviceIdsLogged (t1 ++ t2) = serviceIdsLogged t1 ++ serviceIdsLogged t2.
Proof. apply omap_app. Qed.

End Traces.

(** ** The worker's loops *)

Section Loops.

Context {World : Type} (formatNow : World -> jsstring * World).

Local Abbreviation Trace := (list (Event World)).

Lemma mockProvisionCall_spec (c : ProvisionCall) :
  ensures (mockProvisionCall formatNow c) (fun r t =>
    exists sr ts,
      r = Normal sr /\ t = [SetTimeout 10000; FormatDate ts] /\
      serviceId sr = makeServiceId (pc_jobId c) (pc_counter c) /\
      provisioned sr).
Proof.
  intros w r w' t E. unfold mockProvisionCall, bind, emit, formatTimestamp, ret in E.
  destruct (formatNow w) as [ts w1].
  injection E as <- _ <-.
  eexists _, ts. repeat split.
Qed.

Lemma loopPost_nil (jobId : jsstring) (counter : nat) (services : list ServiceResult) :
  loopPost (World := World) jobId counter services (Normal (counter, services)) [].
Proof.
  split; [reflexivity |]. split; [reflexivity |].
  exists 0%nat. split; [reflexivity |]. split; [lia |].
  exists []. rewrite app_nil_r. repeat split. constructor.
Qed.

Lemma loopPost_raise (jobId : jsstring) (counter : nat)
    (services : list ServiceResult) (e : JsError) :
  loopPost (World := World) jobId counter services (Throw e) [Raised e].
Proof.
  split; [exists []; split; reflexivity |]. split; [reflexivity |].
  exists 0%nat. split; reflexivity.
Qed.

(** Two stretches of the loops, one after the other. *)
Lemma loopPost_trans (jobId : jsstring) (c c1 : nat) (s s1 : list ServiceResult)
    (r : Completion (nat * list ServiceResult)) (t1 t2 : Trace) :
  loopPost jobId c s (Normal (c1, s1)) t1 ->
  loopPost jobId c1 s1 r t2 ->
  loopPost jobId c s r (t1 ++ t2).
Proof.
  intros (Hc1 & Hr1 & k1 & Hl1 & -> & new1 & -> & Hn1 & Hp1)
         (Hc2 & Hr2 & k2 & Hl2 & H2).
  split; [now apply contained_after_quiet |].
  split; [now rewrite requests_app, Hr1, Hr2 |].
  exists (k1 + k2)%nat.
  assert (Hseq : seq (S c) (k1 + k2) = seq (S c) k1 ++ seq (S (c + k1)) k2).
  { rewrite seq_app. do 2 f_equal. }
  split.
  - now rewrite serviceIdsLogged_app, Hl1, Hl2, Hseq, map_app.
  - destruct r as [[c2 s2] | e]; [| exact I].
    destruct H2 as (-> & new2 & -> & Hn2 & Hp2).
    split; [lia |].
    exists (new1 ++ new2). split; [now rewrite app_assoc |].
    split; [now rewrite map_app, Hn1, Hn2, Hseq, map_app |].
    now apply Forall_app.
Qed.

(** One service produced and logged. *)
Lemma loopPost_one (jobId : jsstring) (c : nat) (s : list ServiceResult)
    (sr : ServiceResult) (ms : N) (ts : jsstring) (level : LogLevel)
    (bindings : list LogField) (msg : jsstring) :
  serviceId sr = makeServiceId jobId (c + 1) -> provisioned sr ->
  bindingStr "serviceId" bindings = Some (serviceId sr) ->
  loopPost (World := World) jobId c s (Normal ((c + 1)%nat, s ++ [sr]))
    [SetTimeout ms; FormatDate ts; Log level bindings msg].
Proof.
  intros Hid Hp Hb.
  split; [reflexivity |]. split; [reflexivity |].
  exists 1%nat. rewrite Nat.add_1_r in Hid.
  split; [unfold serviceIdsLogged; simpl; now rewrite Hb, Hid |].
  split; [reflexivity |].
  exists [sr]. repeat split; simpl; [now rewrite Hid | now constructor].
Qed.

Lemma forEachLineItem_spec (jobId : jsstring) (oppId : Val)
    (params : gmap jsstring Val) (lineItems : list LineItemSObject) :
  forall (counter : nat) (services : list ServiceResult),
    ensures (forEachLineItem formatNow jobId oppId params lineItems counter services)
            (loopPost jobId counter services).
Proof.
  induction lineItems as [| oliSObject rest IH]; intros counter services; simpl.
  - apply ensures_ret, loopPost_nil.
  - apply ensures_bind, ensures_readOf.
    + intros oli _.
      apply ensures_bind.
      eapply ensures_weaken; [apply mockProvisionCall_spec |].
      intros r t (sr & ts & -> & -> & Hid & Hp).
      apply ensures_bind, ensures_emit.
      eapply ensures_weaken; [apply IH |].
      intros r t Hrest. simpl app.
      eapply (loopPost_trans _ _ _ _ _ _ [_; _; _]); [| exact Hrest].
      apply loopPost_one; [exact Hid | exact Hp |].
      simpl. reflexivity.
    + intros e _. apply loopPost_raise.
Qed.

Lemma forEachOpportunity_spec (jobId : jsstring) (params : gmap jsstring Val)
    (opportunities : list SObject) :
  forall (counter : nat) (services : list ServiceResult),
    ensures (forEachOpportunity formatNow jobId params opportunities counter services)
            (loopPost jobId counter services).
Proof.
  induction opportunities as [| oppSObject rest IH]; intros counter services; simpl.
  - apply ensures_ret, loopPost_nil.
  - apply ensures_bind, ensures_readOf.
    + intros opp _.
      destruct (lineItemRecords oppSObject) as [lineItems |].
      * apply ensures_bind.
        eapply ensures_weaken; [apply forEachLineItem_spec |].
        intros [[c1 s1] | e] t1 H1.
        -- eapply ensures_weaken; [apply IH |].
           intros r t2 H2. simpl.
           now apply loopPost_trans with c1 s1.
        -- exact H1.
      * eapply ensures_weaken; [apply IH |].
        intros r t H. exact H.
    + intros e _. apply loopPost_raise.
Qed.

End Loops.

(** ** The worker *)

Section Worker.

Context {World : Type} (formatNow : World -> jsstring * World).

Local Abbreviation Trace := (list (Event World)).

Lemma silent_app (t1 t2 : Trace) : silent t1 -> silent t2 -> silent (t1 ++ t2).
Proof.
  intros [Hr1 Hl1] [Hr2 Hl2]. split.
  - now rewrite requests_app, Hr1, Hr2.
  - now rewrite serviceIdsLogged_app, Hl1, Hl2.
Qed.

Lemma queryPost_after {A} (r : Completion A) (t1 t2 : Trace) :
  quiet t1 -> silent t1 -> queryPost r t2 -> queryPost r (t1 ++ t2).
Proof.
  intros Hq Hs [Hc Hs2]. split.
  - now apply contained_after_quiet.
  - now apply silent_app.
Qed.

Lemma queryMoreLoop_spec (api : DataApi World) (fuel : nat) :
  forall (result : QueryResult) (allRecords : list SObject),
    ensures (queryMoreLoop fuel api result allRecords) queryPost.
Proof.
  induction fuel as [| fuel IH]; intros result allRecords; simpl;
    destruct (negb (done result) && truthyVal (nextRecordsUrl result)).
  - intros w r w' t E. discriminate.
  - apply ensures_ret. repeat split.
  - apply ensures_bind, ensures_await.
    + intros result'. eapply ensures_weaken; [apply IH |].
      intros r t H. apply (queryPost_after r [_]); [reflexivity | split; reflexivity | exact H].
    + intros e. split; [exists []; split; reflexivity | split; reflexivity].
  - apply ensures_ret. repeat split.
Qed.

Lemma queryAll_spec (fuel : nat) (soql : jsstring) (sfContext : Client World) :
  ensures (queryAll fuel soql sfContext) queryPost.
Proof.
  unfold queryAll. apply ensures_try_catch.
  assert (Hbody : ensures
    (match dataApiOf sfContext with
     | Some api =>
         bind (await (Query soql) (query api soql))
           (fun result => queryMoreLoop fuel api result ([] ++ records result))
     | None => throw (Error (lit "No dataApi available in sfContext"))
     end) queryPost).
  { destruct (dataApiOf sfContext) as [api |].
    - apply ensures_bind, ensures_await.
      + intros result. eapply ensures_weaken; [apply queryMoreLoop_spec |].
        intros r t H. apply (queryPost_after r [_]); [reflexivity | split; reflexivity | exact H].
      + intros e. split; [exists []; split; reflexivity | split; reflexivity].
    - apply ensures_throw.
      split; [exists []; split; reflexivity | split; reflexivity]. }
  eapply ensures_weaken; [exact Hbody |].
  intros [a | e] t1 [Hc Hs]; [split; assumption |].
  apply ensures_bind, ensures_emit, ensures_rethrow.
  split.
  - apply (contained_then_logs (A := list SObject)); [exact Hc | reflexivity].
  - apply silent_app; [exact Hs | split; reflexivity].
Qed.

Lemma deliveryPost_after (jobId : jsstring) (ids cb : JsValue) (t1 t2 : Trace) :
  silent t1 -> deliveryPost jobId ids cb t2 -> deliveryPost jobId ids cb (t1 ++ t2).
Proof.
  intros [Hr Hl] (k & Hk & H). exists k.
  rewrite serviceIdsLogged_app, requests_app, Hr, Hl. auto.
Qed.

Lemma deliveryPost_before (jobId : jsstring) (ids cb : JsValue) (t1 t2 : Trace) :
  deliveryPost jobId ids cb t1 -> silent t2 -> deliveryPost jobId ids cb (t1 ++ t2).
Proof.
  intros (k & Hk & H) [Hr Hl]. exists k.
  rewrite serviceIdsLogged_app, requests_app, Hr, Hl, !app_nil_r. auto.
Qed.

Lemma deliveryPost_silent (jobId : jsstring) (ids cb : JsValue) (t : Trace) :
  silent t -> deliveryPost jobId ids cb t.
Proof. intros [Hr Hl]. exists 0%nat. rewrite Hl. auto. Qed.

Lemma caughtAndLogged_after (jobId : jsstring) (t1 t2 : Trace) :
  quiet t1 -> caughtAndLogged jobId t2 -> caughtAndLogged jobId (t1 ++ t2).
Proof.
  intros Hq [H | (e & logs & H & Hl & Hlog)].
  - left. now apply quiet_app.
  - right. exists e, logs. rewrite raisedTail_app, Hq. auto.
Qed.

Lemma batchPost_after (jobId : jsstring) (ids cb : JsValue) (r : Completion unit)
    (t1 t2 : Trace) :
  quiet t1 -> silent t1 -> batchPost jobId ids cb r t2 ->
  batchPost jobId ids cb r (t1 ++ t2).
Proof.
  intros Hq Hs [Hc Hd]. split; [| now apply deliveryPost_after].
  destruct r.
  - now apply caughtAndLogged_after.
  - now apply contained_after_quiet.
Qed.

Lemma batchPost_raise (jobId : jsstring) (ids cb : JsValue) (e : JsError) (t : Trace) :
  queryPost (A := unit) (Throw e) t -> batchPost jobId ids cb (Throw e) t.
Proof. intros [Hc Hs]. split; [exact Hc | now apply deliveryPost_silent]. Qed.

Lemma batchPost_plain (jobId : jsstring) (ids cb : JsValue) (t : Trace) :
  quiet t -> silent t -> batchPost jobId ids cb (Normal tt) t.
Proof. intros Hq Hs. split; [now left | now apply deliveryPost_silent]. Qed.

(** The end of the batch, once the loops have produced [svcs]. *)
Lemma delivery_spec (jobId : jsstring) (ids cb : JsValue) (org' : Org World)
    (c : nat) (svcs : list ServiceResult) (tl : Trace) :
  loopPost jobId 0 [] (Normal (c, svcs)) tl ->
  ensures
    (if (length svcs =? 0)%nat then
       logger_warn []
         (lit "No services were generated for provisioning job " ++ jobId ++ lit ".")
     else
       let summary := jobSummary svcs in
       bind (logger_info []
               (lit "Provisioning job " ++ jobId ++ lit " completed. "
                ++ numberToString (succeeded summary) ++ lit " services provisioned."))
         (fun _ =>
            if negb (truthy cb) then
              logger_warn []
                (lit "No callbackUrl provided for provisioning job " ++ jobId
                 ++ lit ", skipping callback execution")
            else
              try_catch
                (let callbackResults :=
                   {| cb_jobId := jobId;
                      cb_opportunityIds := ids;
                      cb_services := svcs;
                      cb_summary := summary;
                      cb_status := lit "completed";
                      cb_errors := [] |} in
                 let requestOptions :=
                   {| method := lit "POST";
                      headers := [(lit "Content-Type", lit "application/json")];
                      body := callbackResults |} in
                 bind (await (Request cb requestOptions)
                         (request org' cb requestOptions))
                   (fun _ =>
                      logger_info []
                        (lit "Provisioning callback executed successfully for Job ID: "
                         ++ jobId ++ lit ". Services returned: "
                         ++ numberToString (length svcs))))
                (fun callbackError =>
                   logger_error [LErr "err" callbackError; LStr "jobId" jobId]
                     (lit "Failed to execute provisioning callback for Job ID: " ++ jobId))))
    (fun r t => batchPost jobId ids cb r (tl ++ t)).
Proof.
  intros (Hq & Hr & k & Hl & -> & new & Hnew & Hids & Hprov).
  simpl in Hq, Hnew. subst new.
  assert (Hlen : length svcs = k).
  { rewrite <- (length_map serviceId svcs), Hids, length_map. apply length_seq. }
  assert (Hbase : deliveryPost jobId ids cb tl).
  { exists k. auto. }
  assert (Hlog : forall level msg, silent [Log (World := World) level [] msg]).
  { intros; split; reflexivity. }
  destruct (length svcs =? 0)%nat eqn:Hz.
  - apply ensures_emit. split.
    + left. apply quiet_app; [exact Hq | reflexivity].
    + apply deliveryPost_before; [exact Hbase | apply Hlog].
  - apply Nat.eqb_neq in Hz.
    apply ensures_bind, ensures_emit.
    destruct (negb (truthy cb)).
    + apply ensures_emit. split.
      * left. repeat apply quiet_app; try exact Hq; reflexivity.
      * apply deliveryPost_before; [exact Hbase |].
        apply silent_app; apply Hlog.
    + apply ensures_try_catch, ensures_bind, ensures_await.
      * intros []. apply ensures_emit. split.
        -- left. repeat apply quiet_app; try exact Hq; reflexivity.
        -- exists k. rewrite !serviceIdsLogged_app, !requests_app, Hr, Hl.
           split; [now rewrite app_nil_r |].
           right. eexists svcs, _. split; [reflexivity |].
           split; [lia |]. split; [repeat split |]. auto.
      * intros e. apply ensures_emit. split.
        -- right. exists e. eexists.
           rewrite !raisedTail_app, Hq. simpl.
           split; [reflexivity |]. split; [reflexivity |].
           eexists _, _. split; [apply list_elem_of_here |].
           split; [apply list_elem_of_here |].
           left. apply list_elem_of_further, list_elem_of_here.
        -- exists k. rewrite !serviceIdsLogged_app, !requests_app, Hr, Hl.
           split; [now rewrite app_nil_r |].
           right. eexists svcs, _. split; [reflexivity |].
           split; [lia |]. split; [repeat split |]. auto.
Qed.

Lemma provisionBatch_spec (fuel : nat) (jobId : jsstring) (ids : JsValue)
    (client : option (Client World)) (cb : JsValue) :
  ensures (provisionBatch formatNow fuel jobId ids client cb)
          (batchPost jobId ids cb).
Proof.
  assert (Hraise : forall e, batchPost jobId ids cb (Throw e) [Raised (World := World) e]).
  { intros e. apply batchPost_raise.
    split; [exists []; split; reflexivity | split; reflexivity]. }
  unfold provisionBatch.
  apply ensures_bind.
  destruct client as [client' |]; [apply ensures_ret | apply ensures_throw, Hraise].
  apply ensures_bind, ensures_readOf; [intros context' _ | intros e _; apply Hraise].
  apply ensures_bind, ensures_readOf; [intros org' _ | intros e _; apply Hraise].
  simpl app.
  destruct (dataApi org') as [dataApi' |].
  - apply ensures_bind, ensures_await.
    + intros paramResult.
      apply ensures_bind.
      eapply ensures_weaken; [apply queryAll_spec |].
      intros [opportunities | e] tq [Hcq Hsq].
      * apply ensures_bind, ensures_emit.
        apply ensures_bind.
        eapply ensures_weaken; [apply forEachOpportunity_spec |].
        intros [[c svcs] | e] tl Hloop.
        -- eapply ensures_weaken; [eapply delivery_spec, Hloop |].
           intros r t H. simpl snd in H.
           apply (batchPost_after _ _ _ _ [_]); [reflexivity | split; reflexivity |].
           apply batchPost_after; [exact Hcq | exact Hsq |].
           apply (batchPost_after _ _ _ _ [_]); [reflexivity | split; reflexivity |].
           exact H.
        -- apply (batchPost_after _ _ _ _ [_]); [reflexivity | split; reflexivity |].
           apply batchPost_after; [exact Hcq | exact Hsq |].
           apply (batchPost_after _ _ _ _ [_]); [reflexivity | split; reflexivity |].
           destruct Hloop as (Hc & Hr & k & Hl & _).
           split; [exact Hc |]. exists k. auto.
      * apply (batchPost_after _ _ _ _ [_]); [reflexivity | split; reflexivity |].
        apply batchPost_raise. split; assumption.
    + intros e. apply batchPost_raise.
      split; [exists []; split; reflexivity | split; reflexivity].
  - apply ensures_emit, batchPost_plain; [reflexivity | split; reflexivity].
Qed.

Lemma mentionsJob_suffix (jobId p : jsstring) (bindings : list LogField) :
  mentionsJob jobId bindings (p ++ jobId).
Proof. right. exists p, []. now rewrite app_nil_r. Qed.

(** Every run of the worker that ends: it ends normally, any exception
    was caught and logged with the job id, and the callback is called at
    most once, with the services numbered by the counter. *)
Lemma provisionServices_spec (fuel : nat) (jobId : jsstring) (ids : JsValue)
    (client : option (Client World)) (cb : JsValue) :
  ensures (provisionServices formatNow fuel jobId ids client cb)
          (workerPost jobId ids cb).
Proof.
  unfold provisionServices.
  destruct (negb (truthy ids) || negb (isArray ids)
            || (length (elements ids) =? 0)%nat).
  - apply ensures_emit. split; [reflexivity |]. split; [now left |].
    apply deliveryPost_silent. split; reflexivity.
  - apply ensures_bind, ensures_emit, ensures_try_catch.
    eapply ensures_weaken; [apply provisionBatch_spec |].
    intros [[] | e] t [Hc Hd].
    + split; [reflexivity |]. split.
      * apply (caughtAndLogged_after _ [_]); [reflexivity | exact Hc].
      * apply (deliveryPost_after _ _ _ [_]); [split; reflexivity | exact Hd].
    + apply ensures_emit. split; [reflexivity |].
      destruct Hc as (logs & Ht & Hlogs). split.
      * apply (caughtAndLogged_after _ [_]); [reflexivity |].
        right. exists e, (logs ++ [Log level_error [LErr "err" e]
                   (lit "Error executing provisioning batch for Job ID: " ++ jobId)]).
        rewrite raisedTail_app, Ht. split; [reflexivity |].
        split; [now rewrite forallb_app, Hlogs |].
        eexists _, _. split; [apply elem_of_app; right; apply list_elem_of_here |].
        split; [apply list_elem_of_here | apply mentionsJob_suffix].
      * apply (deliveryPost_after _ _ _ [_]); [split; reflexivity |].
        apply deliveryPost_before; [exact Hd | split; reflexivity].
Qed.

(** The closure run by the event loop never lets an exception out. *)
Lemma immediateTask_spec (fuel : nat) (job : Job World) :
  ensures (immediateTask formatNow fuel job)
          (workerPost (job_jobId job) (job_opportunityIds job) (job_callbackUrl job)).
Proof.
  unfold immediateTask. apply ensures_try_catch.
  eapply ensures_weaken; [apply provisionServices_spec |].
  intros r t (-> & H). split; [reflexivity | exact H].
Qed.

End Worker.

(** ** Pagination *)

Section Pagination.

Context {World : Type}.

Lemma queryMoreLoop_pages (api : DataApi World) (p : QueryResult) (w : World)
    (ps : list QueryResult) (w' : World) :
  Pages api p w ps w' ->
  forall (fuel : nat) (allRecords : list SObject),
    (length ps <= fuel)%nat ->
    queryMoreLoop fuel api p allRecords w =
    Some (Normal (allRecords ++ concat (map records ps)), w',
          map QueryMore (take (length ps) (p :: ps))).
Proof.
  induction 1 as [p w Hdone | p w p' w' ps w'' Hdone Hurl Hmore Hrest IH];
    intros fuel allRecords Hfuel.
  - destruct fuel; simpl; rewrite Hdone; simpl;
      unfold ret; now rewrite app_nil_r.
  - destruct fuel as [| fuel]; [simpl in Hfuel; lia |].
    simpl. rewrite Hdone, Hurl. simpl.
    unfold bind, await. rewrite Hmore.
    rewrite (IH fuel (allRecords ++ records p')) by (simpl in Hfuel; lia).
    now rewrite <- app_assoc.
Qed.

Lemma queryMoreLoop_extends (api : DataApi World) (fuel : nat) :
  forall (p : QueryResult) (allRecords rs : list SObject) (w w' : World)
         (t : list (Event World)),
    queryMoreLoop fuel api p allRecords w = Some (Normal rs, w', t) ->
    exists rest, rs = allRecords ++ rest.
Proof.
  induction fuel as [| fuel IH]; intros p allRecords rs w w' t; simpl;
    destruct (negb (done p) && truthyVal (nextRecordsUrl p)).
  - discriminate.
  - intros E. injection E as <- _ _. exists []. now rewrite app_nil_r.
  - unfold bind, await.
    destruct (queryMore api p w) as [[p' | e] w1]; [| discriminate].
    destruct (queryMoreLoop fuel api p' (allRecords ++ records p') w1)
      as [[[r w2] t2] |] eqn:Hloop; [| discriminate].
    intros E. injection E as -> _ _.
    destruct (IH _ _ _ _ _ _ Hloop) as [rest ->].
    exists (records p' ++ rest). now rewrite app_assoc.
  - intros E. injection E as <- _ _. exists []. now rewrite app_nil_r.
Qed.

(** C5. When the first page and every further page that reports more
    ([done] false, continuation token present) are followed up to a page
    that reports completion, [queryAll] ends, given fuel for the
    [queryMore] calls, with the records of all the pages concatenated in
    page order, having asked for each further page once.  And whenever
    [queryAll] returns after a first page that reports more, what it
    returns goes on, after the records of that page, with the records of
    the page that follows: it is never the first page alone. *)
Theorem C5_queryAll_returns_every_page (api : DataApi World)
    (sfContext : Client World) (soql : jsstring) (w w1 : World)
    (p0 : QueryResult) :
  dataApiOf sfContext = Some api ->
  query api soql w = (Normal p0, w1) ->
  (forall (ps : list QueryResult) (w2 : World) (fuel : nat),
     Pages api p0 w1 ps w2 ->
     (length ps <= fuel)%nat ->
     queryAll fuel soql sfContext w =
     Some (Normal (concat (map records (p0 :: ps))), w2,
           Query soql :: map QueryMore (take (length ps) (p0 :: ps)))) /\
  (forall (fuel : nat) (rs : list SObject) (w' : World) (t : list (Event World)),
     done p0 = false ->
     truthyVal (nextRecordsUrl p0) = true ->
     queryAll fuel soql sfContext w = Some (Normal rs, w', t) ->
     exists p1 w1' rest,
       queryMore api p0 w1 = (Normal p1, w1') /\
       rs = records p0 ++ records p1 ++ rest).
Proof.
  intros Hapi Hquery. split.
  - intros ps w2 fuel Hpages Hfuel.
    unfold queryAll, try_catch. rewrite Hapi.
    unfold bind, await. rewrite Hquery.
    now rewrite (queryMoreLoop_pages _ _ _ _ _ Hpages fuel _ Hfuel).
  - intros fuel rs w' t Hdone Hurl.
    unfold queryAll, try_catch. rewrite Hapi.
    unfold bind at 1, await at 1. rewrite Hquery.
    destruct fuel as [| fuel]; simpl queryMoreLoop; rewrite Hdone, Hurl; simpl;
      [discriminate |].
    unfold bind at 1, await.
    destruct (queryMore api p0 w1) as [[p1 | e] w1'].
    + destruct (queryMoreLoop fuel api p1 (records p0 ++ records p1) w1')
        as [[[[rs' | e] w2] t2] |] eqn:Hloop.
      * intros E. injection E as <- _ _.
        destruct (queryMoreLoop_extends _ _ _ _ _ _ _ _ Hloop) as [rest ->].
        exists p1, w1', rest. split; [reflexivity | now rewrite app_assoc].
      * unfold bind, logger_error, emit, rethrow. discriminate.
      * discriminate.
    + unfold bind, logger_error, emit, rethrow. discriminate.
Qed.

End Pagination.

Lemma C5_witness :
  queryAll 2 (oppQuery (opportunityIdList (elements Fixture.requestedIds)))
    (Fixture.clientOf Fixture.threePagesApi (Normal tt)) 0%nat =
  Some (Normal [Fixture.parent1; Fixture.parent2; Fixture.parent3], 3%nat,
        [Query (oppQuery (opportunityIdList (elements Fixture.requestedIds)));
         QueryMore (Fixture.morePage [Fixture.parent1] "/next/2");
         QueryMore (Fixture.morePage [Fixture.parent2] "/next/3")]) /\
  exists p1 w1' rest,
    queryMore Fixture.threePagesApi (Fixture.morePage [Fixture.parent1] "/next/2") 1%nat
      = (Normal p1, w1') /\
    [Fixture.parent1; Fixture.parent2; Fixture.parent3]
      = records (Fixture.morePage [Fixture.parent1] "/next/2") ++ records p1 ++ rest.
Proof.
  destruct (C5_queryAll_returns_every_page Fixture.threePagesApi
              (Fixture.clientOf Fixture.threePagesApi (Normal tt))
              (oppQuery (opportunityIdList (elements Fixture.requestedIds)))
              0%nat 1%nat
              (Fixture.morePage [Fixture.parent1] "/next/2")
              eq_refl eq_refl) as [Hall Hmore].
  split.
  - apply (Hall [Fixture.morePage [Fixture.parent2] "/next/3";
                 Fixture.lastPage [Fixture.parent3]] 3%nat 2%nat).
    + eapply Pages_more; [reflexivity | reflexivity | reflexivity |].
      eapply Pages_more; [reflexivity | reflexivity | reflexivity |].
      apply Pages_done. reflexivity.
    + simpl. lia.
  - apply (Hmore 2%nat [Fixture.parent1; Fixture.parent2; Fixture.parent3] 3%nat
             [Query (oppQuery (opportunityIdList (elements Fixture.requestedIds)));
              QueryMore (Fixture.morePage [Fixture.parent1] "/next/2");
              QueryMore (Fixture.morePage [Fixture.parent2] "/next/3")]);
      reflexivity.
Defined.

(** ** The guarantees of a job *)

Section Jobs.

Context {World : Type} (formatNow : World -> jsstring * World).

Local Abbreviation Trace := (list (Event World)).

Lemma delivered_payload (jobId : jsstring) (ids cb : JsValue) (t : Trace)
    (url : JsValue) (options : RequestOptions) :
  deliveryPost jobId ids cb t ->
  (url, options) ∈ requests t ->
  requests t = [(cb, options)] /\ url = cb /\
  exists k,
    k <> 0%nat /\
    serviceIdsLogged t = map (makeServiceId jobId) (seq 1 k) /\
    completedPayload jobId ids (cb_services (body options)) (body options) /\
    map serviceId (cb_services (body options)) = map (makeServiceId jobId) (seq 1 k) /\
    Forall provisioned (cb_services (body options)).
Proof.
  intros (k & Hk & [Hnone | (svcs & options' & Hreq & Hk0 & Hpay & Hids & Hprov)]) Hin.
  - rewrite Hnone in Hin. inversion Hin.
  - rewrite Hreq in Hin. apply list_elem_of_singleton in Hin.
    injection Hin as -> ->.
    assert (Hsvcs : cb_services (body options') = svcs) by apply Hpay.
    rewrite Hsvcs. split; [exact Hreq |]. split; [reflexivity |].
    exists k. auto.
Qed.

(** C6. The summary built from a sequence of services has their number
    as [total], and [succeeded + failed] equal to [total]; and in every
    run of the worker, the summary of a delivered payload is the summary
    of the services of that payload. *)
Theorem C6_summary_counts_services (fuel : nat) (jobId : jsstring)
    (opportunityIds : JsValue) (client : option (Client World))
    (callbackUrl : JsValue) (w w' : World) (r : Completion unit) (t : Trace)
    (url : JsValue) (options : RequestOptions) :
  provisionServices formatNow fuel jobId opportunityIds client callbackUrl w
    = Some (r, w', t) ->
  (url, options) ∈ requests t ->
  (forall services : list ServiceResult,
     total (jobSummary services) = length services /\
     (succeeded (jobSummary services) + failed (jobSummary services))%nat
       = total (jobSummary services)) /\
  cb_summary (body options) = jobSummary (cb_services (body options)) /\
  total (cb_summary (body options)) = length (cb_services (body options)) /\
  (succeeded (cb_summary (body options)) + failed (cb_summary (body options)))%nat
    = total (cb_summary (body options)).
Proof.
  intros Hrun Hin.
  split; [intros services; simpl; split; [reflexivity | lia] |].
  destruct (provisionServices_spec formatNow _ _ _ _ _ _ _ _ _ Hrun) as (_ & _ & Hd).
  destruct (delivered_payload _ _ _ _ _ _ Hd Hin) as (_ & _ & k & _ & _ & Hpay & _).
  destruct Hpay as (_ & _ & _ & -> & _). simpl.
  split; [reflexivity |]. split; [reflexivity | lia].
Qed.

(** C9. In every run of the worker, the service identifiers logged as the
    services are produced are, in processing order, those built from the
    job id and the counter values 1, 2, ..., k; identifiers built from
    different counter values differ, so no identifier repeats; and a
    delivered payload carries exactly these identifiers, in this order. *)
Theorem C9_service_ids_follow_the_counter (fuel : nat) (jobId : jsstring)
    (opportunityIds : JsValue) (client : option (Client World))
    (callbackUrl : JsValue) (w w' : World) (r : Completion unit) (t : Trace) :
  provisionServices formatNow fuel jobId opportunityIds client callbackUrl w
    = Some (r, w', t) ->
  (forall n m : nat, makeServiceId jobId n = makeServiceId jobId m -> n = m) /\
  exists k : nat,
    serviceIdsLogged t = map (makeServiceId jobId) (seq 1 k) /\
    NoDup (serviceIdsLogged t) /\
    forall url options,
      (url, options) ∈ requests t ->
      map serviceId (cb_services (body options)) = serviceIdsLogged t /\
      NoDup (map serviceId (cb_services (body options))).
Proof.
  intros Hrun.
  split; [apply makeServiceId_inj |].
  destruct (provisionServices_spec formatNow _ _ _ _ _ _ _ _ _ Hrun) as (_ & _ & Hd).
  pose proof Hd as (k & Hk & _).
  exists k. split; [exact Hk |].
  split; [rewrite Hk; apply NoDup_makeServiceId |].
  intros url options Hin.
  destruct (delivered_payload _ _ _ _ _ _ Hd Hin)
    as (_ & _ & k' & _ & Hk' & _ & Hids & _).
  rewrite Hids, Hk'. split; [reflexivity | apply NoDup_makeServiceId].
Qed.

(** C10. Every ServiceResult that [mockProvisionCall] returns has status
    Provisioned, and in every run of the worker a delivered payload has
    only Provisioned services, status completed, no errors and a summary
    with [failed] equal to 0. *)
Theorem C10_only_provisioned_and_completed (fuel : nat) (jobId : jsstring)
    (opportunityIds : JsValue) (client : option (Client World))
    (callbackUrl : JsValue) (w w' : World) (r : Completion unit) (t : Trace) :
  provisionServices formatNow fuel jobId opportunityIds client callbackUrl w
    = Some (r, w', t) ->
  (forall c w0 r0 w1 t0,
     mockProvisionCall formatNow c w0 = Some (r0, w1, t0) ->
     exists sr, r0 = Normal sr /\ status sr = lit "Provisioned") /\
  forall url options,
    (url, options) ∈ requests t ->
    Forall (fun sr => status sr = lit "Provisioned") (cb_services (body options)) /\
    cb_status (body options) = lit "completed" /\
    cb_errors (body options) = [] /\
    failed (cb_summary (body options)) = 0%nat.
Proof.
  intros Hrun. split.
  - intros c w0 r0 w1 t0 Hcall.
    destruct (mockProvisionCall_spec formatNow c _ _ _ _ Hcall)
      as (sr & ts & -> & _ & _ & Hp).
    exists sr. split; [reflexivity | exact Hp].
  - intros url options Hin.
    destruct (provisionServices_spec formatNow _ _ _ _ _ _ _ _ _ Hrun) as (_ & _ & Hd).
    destruct (delivered_payload _ _ _ _ _ _ Hd Hin)
      as (_ & _ & k & _ & _ & Hpay & _ & Hprov).
    destruct Hpay as (_ & _ & _ & Hsum & Hstatus & Herr).
    split; [exact Hprov |]. split; [exact Hstatus |]. split; [exact Herr |].
    now rewrite Hsum.
Qed.

End Jobs.

Lemma C6_witness :
  total (cb_summary (body Fixture.deliveredOptions)) = 2%nat /\
  total (cb_summary (body Fixture.deliveredOptions))
    = length (cb_services (body Fixture.deliveredOptions)) /\
  (succeeded (cb_summary (body Fixture.deliveredOptions))
   + failed (cb_summary (body Fixture.deliveredOptions)))%nat
    = total (cb_summary (body Fixture.deliveredOptions)).
Proof.
  split; [reflexivity |].
  apply (C6_summary_counts_services Fixture.formatNow 0 Fixture.jobId
           Fixture.requestedIds
           (Some (Fixture.clientOf (Fixture.simpleApi Fixture.someParameters) (Normal tt)))
           Fixture.callbackUrl 0%nat 5%nat (Normal tt) Fixture.completedTrace
           Fixture.callbackUrl Fixture.deliveredOptions).
  - reflexivity.
  - apply list_elem_of_here.
Defined.

Lemma C9_witness :
  serviceIdsLogged Fixture.completedTrace =
    [makeServiceId Fixture.jobId 1; makeServiceId Fixture.jobId 2] /\
  map serviceId (cb_services (body Fixture.deliveredOptions))
    = serviceIdsLogged Fixture.completedTrace /\
  NoDup (map serviceId (cb_services (body Fixture.deliveredOptions))).
Proof.
  split; [reflexivity |].
  destruct (C9_service_ids_follow_the_counter Fixture.formatNow 0 Fixture.jobId
              Fixture.requestedIds
              (Some (Fixture.clientOf (Fixture.simpleApi Fixture.someParameters) (Normal tt)))
              Fixture.callbackUrl 0%nat 5%nat (Normal tt) Fixture.completedTrace
              eq_refl) as (_ & k & _ & _ & Hdelivered).
  apply (Hdelivered Fixture.callbackUrl Fixture.deliveredOptions).
  apply list_elem_of_here.
Defined.

Lemma C10_witness :
  Forall (fun sr => status sr = lit "Provisioned")
         (cb_services (body Fixture.deliveredOptions)) /\
  cb_status (body Fixture.deliveredOptions) = lit "completed" /\
  cb_errors (body Fixture.deliveredOptions) = [] /\
  failed (cb_summary (body Fixture.deliveredOptions)) = 0%nat.
Proof.
  apply (proj2 (C10_only_provisioned_and_completed Fixture.formatNow 0 Fixture.jobId
           Fixture.requestedIds
           (Some (Fixture.clientOf (Fixture.simpleApi Fixture.someParameters) (Normal tt)))
           Fixture.callbackUrl 0%nat 5%nat (Normal tt) Fixture.completedTrace eq_refl)
           Fixture.callbackUrl Fixture.deliveredOptions).
  apply list_elem_of_here.
Defined.

Section EmptyJobs.

Context {World : Type} (formatNow : World -> jsstring * World).

Local Abbreviation Trace := (list (Event World)).

(** With a non-empty array of ids the worker logs and enters its
    [try]. *)
Lemma provisionServices_nonempty (fuel : nat) (jobId : jsstring) (id0 : JsValue)
    (ids : list JsValue) (client : option (Client World)) (cb : JsValue) (w : World) :
  provisionServices formatNow fuel jobId (JArray (id0 :: ids)) client cb w =
  after [Log level_info []
           (lit "Processing provisioning job " ++ jobId ++ lit " for "
            ++ numberToString (length (id0 :: ids)) ++ lit " opportunity IDs")]
    (try_catch
       (provisionBatch formatNow fuel jobId (JArray (id0 :: ids)) client cb)
       (fun error =>
          logger_error [LErr "err" error]
            (lit "Error executing provisioning batch for Job ID: " ++ jobId)) w).
Proof. reflexivity. Qed.






End EmptyJobs.



(** ** Failure of the configuration-parameter fetch *)

Lemma reduceParameters_snoc (records : list SObject) (record : SObject) :
  reduceParameters (records ++ [record]) = addParameter (reduceParameters records) record.
Proof. unfold reduceParameters. now rewrite foldl_app. Qed.

Lemma addParameter_other (acc : gmap jsstring Val) (record : SObject) (key : jsstring) :
  f_Name__c (parameterFields record) <> Some key ->
  addParameter acc record !! key = acc !! key.
Proof.
  unfold addParameter, parameterFields. intros Hname.
  destruct (f_Name__c _) as [[| c name] |]; try reflexivity.
  destruct (bool_decide (c :: name = lit "__proto__")); [reflexivity |].
  apply lookup_insert_ne. congruence.
Qed.

Lemma addParameter_named (acc : gmap jsstring Val) (record : SObject) (name : string) :
  name ∈ parameterNames ->
  f_Name__c (parameterFields record) = Some (lit name) ->
  addParameter acc record !! lit name = Some (f_Value__c (parameterFields record)).
Proof.
  intros Hin Hname. unfold addParameter. fold (parameterFields record).
  rewrite Hname.
  repeat (apply elem_of_cons in Hin as [-> | Hin]; [apply lookup_insert_eq |]).
  inversion Hin.
Qed.

Lemma reduceParameters_absent (records : list SObject) (key : jsstring) :
  Forall (fun r => f_Name__c (parameterFields r) <> Some key) records ->
  reduceParameters records !! key = None.
Proof.
  induction records as [| r records IH] using rev_ind; intros Hnone.
  - apply lookup_empty.
  - apply Forall_app in Hnone as [Hnone Hr].
    rewrite reduceParameters_snoc, addParameter_other; [now apply IH |].
    now apply Forall_inv in Hr.
Qed.



Section ParameterFetch.

Context {World : Type} (formatNow : World -> jsstring * World).


End ParameterFetch.


(** ** The submission endpoint *)

(** An empty array of ids, with an authenticated context: the request is
    accepted.  A job id is minted, the reply is 201 with that id, and the
    worker is scheduled. *)
Lemma C1_empty_ids_are_accepted :
  postProvisionServices Fixture.crypto_randomUUID
    {| raw_opportunityIds := Some (JArray []);
       raw_callbackUrl := Some Fixture.callbackUrl |}
    (Some (Fixture.clientOf (Fixture.simpleApi Fixture.noParameters) (Normal tt)))
    0%nat
  = Some (Normal tt, 1%nat,
      [RandomUUID Fixture.jobId;
       Reply 201 (ReplyJob Fixture.jobId);
       SetImmediate
         {| job_jobId := Fixture.jobId;
            job_opportunityIds := JArray [];
            job_client :=
              Some (Fixture.clientOf (Fixture.simpleApi Fixture.noParameters) (Normal tt));
            job_callbackUrl := Fixture.callbackUrl |}]).
Proof. reflexivity. Qed.

(** No authenticated context: the reply is 401 and nothing is scheduled,
    but a job id has been minted before the context is looked at. *)
Lemma C4_job_id_minted_before_the_check :
  handler Fixture.crypto_randomUUID
    {| req_body := {| opportunityIds := Fixture.requestedIds;
                      callbackUrl := Fixture.callbackUrl |};
       salesforce := None |}
    0%nat
  = Some (Normal tt, 1%nat,
      [RandomUUID Fixture.jobId;
       Log level_error [] (lit "Salesforce context not available in request");
       Reply 401 (ReplyError (lit "Salesforce context required. Ensure x-client-context header is present."))]).
Proof. reflexivity. Qed.

Section Endpoint.

Context {World : Type}.
Context (crypto_randomUUID formatNow : World -> jsstring * World).

(** C1, as the code has it. A body without [opportunityIds] does not
    validate against the schema of the route: the reply is 400, the
    handler does not run, no job id is minted and no worker is scheduled.
    A body whose [opportunityIds] is an empty array validates: with an
    authenticated context the handler mints a job id, replies 201 with it
    and schedules the worker; that worker, when it runs, logs that no ids
    were provided and ends, without any query or callback. *)
Theorem C1_missing_ids_rejected_empty_ids_accepted (b : RawBody)
    (sf : option (Client World)) (w : World) (fuel : nat) :
  (raw_opportunityIds b = None ->
   exists payload,
     postProvisionServices crypto_randomUUID b sf w
     = Some (Normal tt, w, [Reply 400 payload])) /\
  (raw_opportunityIds b = Some (JArray []) ->
   ProvisionServicesRequestSchema b = true ->
   contextMissing sf = false ->
   let jobId := fst (crypto_randomUUID w) in
   let job := {| job_jobId := jobId;
                 job_opportunityIds := JArray [];
                 job_client := sf;
                 job_callbackUrl := default JUndefined (raw_callbackUrl b) |} in
   postProvisionServices crypto_randomUUID b sf w
   = Some (Normal tt, snd (crypto_randomUUID w),
           [RandomUUID jobId; Reply 201 (ReplyJob jobId); SetImmediate job]) /\
   forall w1,
     immediateTask formatNow fuel job w1
     = Some (Normal tt, w1,
             [Log level_warn [] (lit "No opportunityIds provided for Job ID: " ++ jobId)])).
Proof.
  split.
  - intros Hmissing. unfold postProvisionServices, ProvisionServicesRequestSchema.
    rewrite Hmissing. simpl. eexists. reflexivity.
  - intros Hempty Hvalid Hctx. split.
    + unfold postProvisionServices. rewrite Hvalid.
      unfold handler, bind, randomUUID, parsedBody. simpl.
      rewrite Hctx, Hempty.
      now destruct (crypto_randomUUID w) as [u w1].
    + intros w1. reflexivity.
Qed.

(** C4, as the code has it. For every request that reaches the handler
    without an authenticated context exposing the data API, the handler
    mints a job id, logs the error and replies 401 with an error body: the
    job id is not returned and no worker is scheduled. *)
Theorem C4_missing_context_replies_401 (req : HttpRequest World) (w : World) :
  contextMissing (salesforce req) = true ->
  handler crypto_randomUUID req w
  = Some (Normal tt, snd (crypto_randomUUID w),
      [RandomUUID (fst (crypto_randomUUID w));
       Log level_error [] (lit "Salesforce context not available in request");
       Reply 401 (ReplyError (lit "Salesforce context required. Ensure x-client-context header is present."))]).
Proof.
  intros Hctx. unfold handler, bind, randomUUID.
  destruct (crypto_randomUUID w) as [u w1]. now rewrite Hctx.
Qed.

End Endpoint.

Lemma C1_witness :
  (exists payload,
     postProvisionServices Fixture.crypto_randomUUID
       {| raw_opportunityIds := None; raw_callbackUrl := Some Fixture.callbackUrl |}
       (Some (Fixture.clientOf (Fixture.simpleApi Fixture.noParameters) (Normal tt)))
       0%nat
     = Some (Normal tt, 0%nat, [Reply 400 payload])) /\
  postProvisionServices Fixture.crypto_randomUUID
    {| raw_opportunityIds := Some (JArray []);
       raw_callbackUrl := Some Fixture.callbackUrl |}
    (Some (Fixture.clientOf (Fixture.simpleApi Fixture.noParameters) (Normal tt)))
    0%nat
  = Some (Normal tt, 1%nat,
      [RandomUUID Fixture.jobId;
       Reply 201 (ReplyJob Fixture.jobId);
       SetImmediate
         {| job_jobId := Fixture.jobId;
            job_opportunityIds := JArray [];
            job_client :=
              Some (Fixture.clientOf (Fixture.simpleApi Fixture.noParameters) (Normal tt));
            job_callbackUrl := Fixture.callbackUrl |}]) /\
  immediateTask Fixture.formatNow 0
    {| job_jobId := Fixture.jobId;
       job_opportunityIds := JArray [];
       job_client :=
         Some (Fixture.clientOf (Fixture.simpleApi Fixture.noParameters) (Normal tt));
       job_callbackUrl := Fixture.callbackUrl |} 1%nat
  = Some (Normal tt, 1%nat,
          [Log level_warn []
             (lit "No opportunityIds provided for Job ID: " ++ Fixture.jobId)]).
Proof.
  split.
  - apply (proj1 (C1_missing_ids_rejected_empty_ids_accepted
                    Fixture.crypto_randomUUID Fixture.formatNow
                    {| raw_opportunityIds := None;
                       raw_callbackUrl := Some Fixture.callbackUrl |}
                    (Some (Fixture.clientOf (Fixture.simpleApi Fixture.noParameters)
                             (Normal tt)))
                    0%nat 0)).
    reflexivity.
  - destruct (proj2 (C1_missing_ids_rejected_empty_ids_accepted
                       Fixture.crypto_randomUUID Fixture.formatNow
                       {| raw_opportunityIds := Some (JArray []);
                          raw_callbackUrl := Some Fixture.callbackUrl |}
                       (Some (Fixture.clientOf (Fixture.simpleApi Fixture.noParameters)
                                (Normal tt)))
                       0%nat 0) eq_refl eq_refl eq_refl) as [Haccepted Hworker].
    split; [exact Haccepted | exact (Hworker 1%nat)].
Defined.

Lemma C4_witness :
  handler Fixture.crypto_randomUUID
    {| req_body := {| opportunityIds := Fixture.requestedIds;
                      callbackUrl := Fixture.callbackUrl |};
       salesforce := Some {| context := Some {| org := None |} |} |}
    7%nat
  = Some (Normal tt, 8%nat,
      [RandomUUID (Fixture.uuidOf 7%nat);
       Log level_error [] (lit "Salesforce context not available in request");
       Reply 401 (ReplyError (lit "Salesforce context required. Ensure x-client-context header is present."))]).
Proof.
  apply (C4_missing_context_replies_401 Fixture.crypto_randomUUID
           {| req_body := {| opportunityIds := Fixture.requestedIds;
                             callbackUrl := Fixture.callbackUrl |};
              salesforce := Some {| context := Some {| org := None |} |} |} 7%nat).
  reflexivity.
Defined.

(** ** Containment of failures *)

Section Containment.

Context {World : Type} (formatNow : World -> jsstring * World).

Local Abbreviation Trace := (list (Event World)).

Lemma returns_bind {A B} (m : M World A) (k : A -> M World B) :
  returns m -> (forall a, returns (k a)) -> returns (bind m k).
Proof.
  intros Hm Hk w. unfold bind.
  destruct (Hm w) as [[[[a | e] w1] t1] ->]; [| eauto].
  destruct (Hk a w1) as [[[r w2] t2] ->]. eauto.
Qed.

Lemma returns_try_catch {A} (body : M World A) (handler : JsError -> M World A) :
  returns body -> (forall e, returns (handler e)) -> returns (try_catch body handler).
Proof.
  intros Hm Hk w. unfold try_catch.
  destruct (Hm w) as [[[[a | e] w1] t1] ->]; [eauto |].
  destruct (Hk e w1) as [[[r w2] t2] ->]. eauto.
Qed.

Lemma returns_ret {A} (a : A) : returns (ret (World := World) a).
Proof. intros w. eexists. reflexivity. Qed.

Lemma returns_emit (ev : Event World) : returns (emit ev).
Proof. intros w. eexists. reflexivity. Qed.

Lemma returns_throw {A} (e : JsError) : returns (throw (World := World) (A := A) e).
Proof. intros w. eexists. reflexivity. Qed.

Lemma returns_await {A} (ev : Event World) (call : World -> Completion A * World) :
  returns (await ev call).
Proof. intros w. unfold await. destruct (call w) as [[a | e] w1]; eauto. Qed.

Lemma returns_readOf {A} (what : string) (o : option A) :
  returns (readOf (World := World) what o).
Proof. destruct o; [apply returns_ret | apply returns_throw]. Qed.

Lemma returns_mockProvisionCall (c : ProvisionCall) :
  returns (mockProvisionCall formatNow c).
Proof.
  apply returns_bind; [apply returns_emit | intros _].
  apply returns_bind; [| intros ts; apply returns_ret].
  intros w. unfold formatTimestamp. destruct (formatNow w). eauto.
Qed.

Lemma returns_forEachLineItem (jobId : jsstring) (oppId : Val)
    (params : gmap jsstring Val) (lineItems : list LineItemSObject) :
  forall counter services,
    returns (forEachLineItem formatNow jobId oppId params lineItems counter services).
Proof.
  induction lineItems as [| oliSObject rest IH]; intros counter services; simpl.
  - apply returns_ret.
  - apply returns_bind; [apply returns_readOf | intros oli].
    apply returns_bind; [apply returns_mockProvisionCall | intros sr].
    apply returns_bind; [apply returns_emit | intros _]. apply IH.
Qed.

Lemma returns_forEachOpportunity (jobId : jsstring) (params : gmap jsstring Val)
    (opportunities : list SObject) :
  forall counter services,
    returns (forEachOpportunity formatNow jobId params opportunities counter services).
Proof.
  induction opportunities as [| oppSObject rest IH]; intros counter services; simpl.
  - apply returns_ret.
  - apply returns_bind; [apply returns_readOf | intros opp].
    destruct (lineItemRecords oppSObject); [| apply IH].
    apply returns_bind; [apply returns_forEachLineItem | intros r; apply IH].
Qed.

Lemma returns_bind_ret {A B} (a : A) (k : A -> M World B) :
  returns (k a) -> returns (bind (ret a) k).
Proof. intros H w. rewrite bind_ret. apply H. Qed.

(** The worker ends whenever its record query does. *)
Lemma returns_provisionServices (fuel : nat) (jobId : jsstring) (ids : JsValue)
    (client : option (Client World)) (cb : JsValue) :
  (forall c ctx org' soql,
     client = Some c -> context c = Some ctx -> org ctx = Some org' ->
     returns (queryAll fuel soql {| context := Some {| org := Some org' |} |})) ->
  returns (provisionServices formatNow fuel jobId ids client cb).
Proof.
  intros Hquery. unfold provisionServices.
  destruct (negb (truthy ids) || negb (isArray ids) || (length (elements ids) =? 0)%nat);
    [apply returns_emit |].
  apply returns_bind; [apply returns_emit | intros _].
  apply returns_try_catch; [| intros e; apply returns_emit].
  unfold provisionBatch.
  destruct client as [c |]; [| intros w; eexists; reflexivity].
  apply returns_bind_ret.
  destruct (context c) as [ctx |] eqn:Hctx; [| intros w; eexists; reflexivity].
  apply returns_bind_ret.
  destruct (org ctx) as [org' |] eqn:Horg; [| intros w; eexists; reflexivity].
  apply returns_bind_ret.
  destruct (dataApi org') as [api |]; [| apply returns_emit].
  apply returns_bind; [apply returns_await | intros paramResult].
  apply returns_bind; [now apply (Hquery c ctx org') | intros opportunities].
  apply returns_bind; [apply returns_emit | intros _].
  apply returns_bind; [apply returns_forEachOpportunity | intros r].
  destruct (length (snd r) =? 0)%nat; [apply returns_emit |].
  apply returns_bind; [apply returns_emit | intros _].
  destruct (negb (truthy cb)); [apply returns_emit |].
  apply returns_try_catch; [| intros e; apply returns_emit].
  apply returns_bind; [apply returns_await | intros _; apply returns_emit].
Qed.

(** C8. The closure that runs the worker ends whenever the record query
    of the worker does.  Every run of it ends normally; so does every run
    of the worker itself, for whoever calls it.  At most one callback call
    is made.  When an exception arises, nothing but logging follows it (no
    call is made again), and an error entry of the log carries the
    exception and names the job. *)
Theorem C8_failures_are_caught_and_logged (fuel : nat) (job : Job World) (w : World) :
  ((forall c ctx org' soql,
      job_client job = Some c -> context c = Some ctx -> org ctx = Some org' ->
      returns (queryAll fuel soql {| context := Some {| org := Some org' |} |})) ->
   is_Some (immediateTask formatNow fuel job w)) /\
  (forall r w' t,
     provisionServices formatNow fuel (job_jobId job) (job_opportunityIds job)
       (job_client job) (job_callbackUrl job) w = Some (r, w', t) ->
     r = Normal tt) /\
  (forall r w' t,
     immediateTask formatNow fuel job w = Some (r, w', t) ->
     r = Normal tt /\
     (length (requests t) <= 1)%nat /\
     forall pre e post,
       t = pre ++ Raised e :: post ->
       quiet pre /\ forallb is_log post = true /\
       exists bindings msg,
         Log level_error bindings msg ∈ post /\ LErr "err" e ∈ bindings /\
         mentionsJob (job_jobId job) bindings msg).
Proof.
  split; [| split].
  - intros Hquery. unfold immediateTask.
    apply returns_try_catch; [| intros e; apply returns_emit].
    now apply returns_provisionServices.
  - intros r w' t Hrun.
    now destruct (provisionServices_spec formatNow _ _ _ _ _ _ _ _ _ Hrun) as (-> & _).
  - intros r w' t Hrun.
    destruct (immediateTask_spec formatNow _ _ _ _ _ _ Hrun)
      as (-> & Hcaught & k & _ & Hreq).
    split; [reflexivity |]. split.
    + destruct Hreq as [-> | (svcs & options & -> & _)]; simpl; lia.
    + intros pre e post ->.
      destruct Hcaught as [Hquiet | (e' & logs & Htail & Hlogs & Hentry)].
      * apply quiet_app_inv in Hquiet as [_ Hquiet]. discriminate.
      * destruct (raisedTail_unique _ _ _ _ _ _ Htail Hlogs eq_refl) as (-> & -> & Hpre).
        auto.
Qed.

End Containment.

(** ** Rejected ids leave no mark on a job *)

Section Sanitization.

Context {World : Type} (formatNow : World -> jsstring * World).

Local Abbreviation Trace := (list (Event World)).

Lemma observed_app (t1 t2 : Trace) :
  observed (t1 ++ t2) =
  (fst (fst (observed t1)) ++ fst (fst (observed t2)),
   snd (fst (observed t1)) ++ snd (fst (observed t2)),
   snd (observed t1) ++ snd (observed t2)).
Proof.
  unfold observed, delivered, queries, serviceIdsLogged, requests. simpl.
  now rewrite !omap_app, map_app.
Qed.

Lemma sameJob_refl {A} (run : option (Completion A * World * Trace)) :
  sameJob run run.
Proof. destruct run as [[[r w] t] |]; reflexivity. Qed.

Lemma sameJob_after {A} (evs1 evs2 : Trace)
    (run1 run2 : option (Completion A * World * Trace)) :
  observed evs1 = observed evs2 ->
  sameJob run1 run2 -> sameJob (after evs1 run1) (after evs2 run2).
Proof.
  intros Hevs.
  destruct run1 as [[[r1 w1] t1] |], run2 as [[[r2 w2] t2] |]; simpl; auto.
  rewrite !observed_app, Hevs. now intros ->.
Qed.

Lemma bind_unfinished {A B} (m : M World A) (k : A -> M World B) (w : World) :
  m w = None -> bind m k w = None.
Proof. intros H. unfold bind. now rewrite H. Qed.

(** The batch uses the ids only to build the query (and to echo them in
    the payload): two arrays of ids that give the same query text give
    the same queries and the same services. *)
Lemma sameJob_batch (fuel : nat) (jobId : jsstring) (ids1 ids2 : JsValue)
    (client : option (Client World)) (cb : JsValue) (w : World) :
  opportunityIdList (elements ids1) = opportunityIdList (elements ids2) ->
  sameJob (provisionBatch formatNow fuel jobId ids1 client cb w)
          (provisionBatch formatNow fuel jobId ids2 client cb w).
Proof.
  intros Hq. unfold provisionBatch. rewrite Hq.
  destruct client as [c |]; [| apply sameJob_refl].
  rewrite !bind_ret.
  destruct (context c) as [ctx |]; [| apply sameJob_refl].
  simpl readOf. rewrite !bind_ret.
  destruct (org ctx) as [org' |]; [| apply sameJob_refl].
  simpl readOf. rewrite !bind_ret.
  destruct (dataApi org') as [api |]; [| apply sameJob_refl].
  destruct (query api paramQuery w) as [[pr | e] w1] eqn:Hp.
  2:{ rewrite !(bind_await_throw _ _ _ _ _ _ Hp). apply sameJob_refl. }
  rewrite !(bind_await_normal _ _ _ _ _ _ Hp).
  destruct (queryAll fuel (oppQuery (opportunityIdList (elements ids2)))
              {| context := Some {| org := Some org' |} |} w1)
    as [[[[opps | e] w2] tq] |] eqn:Hqa.
  3:{ rewrite !(bind_unfinished _ _ _ Hqa). apply sameJob_refl. }
  2:{ rewrite !(bind_thrown _ _ _ _ _ _ Hqa). apply sameJob_refl. }
  rewrite !(bind_normal _ _ _ _ _ _ Hqa).
  unfold logger_info at 1 4. rewrite !bind_emit.
  destruct (forEachOpportunity formatNow jobId (reduceParameters (records pr))
              opps 0 [] w2)
    as [[[[[c' svcs] | e] w3] tl] |] eqn:Hloop.
  3:{ rewrite !(bind_unfinished _ _ _ Hloop). apply sameJob_refl. }
  2:{ rewrite !(bind_thrown _ _ _ _ _ _ Hloop). apply sameJob_refl. }
  rewrite !(bind_normal _ _ _ _ _ _ Hloop).
  cbn [snd].
  destruct (length svcs =? 0)%nat; [apply sameJob_refl |].
  unfold logger_info at 1 3. rewrite !bind_emit.
  destruct (negb (truthy cb)); [apply sameJob_refl |].
  repeat (apply sameJob_after; [reflexivity |]).
  unfold try_catch, bind, await, logger_info, logger_error, emit.
  destruct (request org' cb _ w3) as [[[] | e1] w4];
    destruct (request org' cb _ w3) as [[[] | e2] w5]; reflexivity.
Qed.

Lemma observed_then_error (t : Trace) (e : JsError) (msg : jsstring) :
  observed (t ++ [Log level_error [LErr "err" e] msg]) = observed t.
Proof.
  rewrite observed_app.
  change (observed [Log (World := World) level_error [LErr "err" e] msg])
    with (@nil jsstring, @nil jsstring, @nil (JsValue * list ServiceResult)).
  cbn [fst snd]. rewrite !app_nil_r. now destruct (observed t) as [[qs ss] ds].
Qed.

Lemma sameJob_worker (fuel : nat) (jobId : jsstring) (id1 id2 : JsValue)
    (ids1 ids2 : list JsValue) (client : option (Client World)) (cb : JsValue)
    (w : World) :
  opportunityIdList (id1 :: ids1) = opportunityIdList (id2 :: ids2) ->
  sameJob (provisionServices formatNow fuel jobId (JArray (id1 :: ids1)) client cb w)
          (provisionServices formatNow fuel jobId (JArray (id2 :: ids2)) client cb w).
Proof.
  intros Hq. rewrite !provisionServices_nonempty.
  apply sameJob_after; [reflexivity |].
  pose proof (sameJob_batch fuel jobId (JArray (id1 :: ids1)) (JArray (id2 :: ids2))
                client cb w Hq) as Hbatch.
  unfold try_catch, logger_error, emit.
  destruct (provisionBatch formatNow fuel jobId (JArray (id1 :: ids1)) client cb w)
    as [[[[[] | e1] w1] t1] |];
    destruct (provisionBatch formatNow fuel jobId (JArray (id2 :: ids2)) client cb w)
      as [[[[[] | e2] w2] t2] |];
    cbn [sameJob] in Hbatch |- *; try exact Hbatch;
    now rewrite ?observed_then_error.
Qed.

Lemma sanitizedIds_accepted (ids : list JsValue) (i : jsstring) :
  i ∈ sanitizedIds ids ->
  forallb isAlnum i = true /\ exists v, v ∈ ids /\ sanitizeSalesforceId v = Some i.
Proof.
  unfold sanitizedIds. intros Hin.
  apply list_elem_of_omap in Hin as (v & Hv & ->).
  apply list_elem_of_filter in Hv as [_ Hv].
  apply list_elem_of_fmap in Hv as (x & Hx & Hin).
  split; [| exists x; auto].
  destruct x; try discriminate. simpl in Hx.
  destruct (salesforceIdPattern_test (trim s)) eqn:Htest; [| discriminate].
  injection Hx as ->. unfold salesforceIdPattern_test in Htest.
  apply andb_prop in Htest as [Htest _].
  now apply andb_prop in Htest as [Htest _].
Qed.

(** C2, as the code has it. The id is trimmed of surrounding white space
    first.  A string whose trimmed form is made of 15 or of 18
    alphanumeric characters is accepted, as its trimmed form; a string
    whose trimmed form holds another character, or fewer than 15 or more
    than 18 characters, and every value that is not a string, is treated
    as absent.  Only accepted ids, alphanumeric throughout, reach the
    query.  An id treated as absent is left out of the constructed query,
    and the job sends the queries, and produces and delivers the
    ServiceResults, of the job submitted without that id (one id at least
    remaining). *)
Theorem C2_sanitization_and_the_query (s : jsstring) (bad : JsValue)
    (l1 l2 : list JsValue) (fuel : nat) (jobId : jsstring)
    (client : option (Client World)) (callbackUrl : JsValue) (w : World) :
  (forallb isAlnum (trim s) = true ->
   (length (trim s) = 15 \/ length (trim s) = 18)%nat ->
   sanitizeSalesforceId (JString s) = Some (trim s)) /\
  (forallb isAlnum (trim s) = false \/ (length (trim s) < 15)%nat
   \/ (18 < length (trim s))%nat ->
   sanitizeSalesforceId (JString s) = None) /\
  ((forall s', bad <> JString s') -> sanitizeSalesforceId bad = None) /\
  (forall i, i ∈ sanitizedIds (l1 ++ l2) ->
     forallb isAlnum i = true /\
     exists v, v ∈ l1 ++ l2 /\ sanitizeSalesforceId v = Some i) /\
  (sanitizeSalesforceId bad = None ->
   opportunityIdList (l1 ++ bad :: l2) = opportunityIdList (l1 ++ l2) /\
   (l1 ++ l2 <> [] ->
    sameJob
      (provisionServices formatNow fuel jobId (JArray (l1 ++ bad :: l2))
         client callbackUrl w)
      (provisionServices formatNow fuel jobId (JArray (l1 ++ l2))
         client callbackUrl w))).
Proof.
  split; [| split; [| split; [| split]]].
  - intros Halnum Hlen. unfold sanitizeSalesforceId.
    now rewrite (pattern_accepts _ Halnum Hlen).
  - intros Hbad. unfold sanitizeSalesforceId.
    now rewrite (pattern_rejects _ Hbad).
  - intros Hnot. destruct bad; try reflexivity. now destruct (Hnot s0).
  - apply sanitizedIds_accepted.
  - intros Hbad.
    assert (Hq : opportunityIdList (l1 ++ bad :: l2) = opportunityIdList (l1 ++ l2)).
    { unfold opportunityIdList. now rewrite (sanitizedIds_without _ _ _ Hbad). }
    split; [exact Hq |].
    intros Hrest.
    destruct (l1 ++ l2) as [| id2 ids2] eqn:E2; [congruence |].
    destruct (l1 ++ bad :: l2) as [| id1 ids1] eqn:E1; [now destruct l1 |].
    now apply sameJob_worker.
Qed.

End Sanitization.

(** An id padded with white space is not a string of 15 or 18
    alphanumeric characters, and is not treated as absent: it is accepted
    in its trimmed form and reaches the query. *)
Lemma C2_padded_id_is_accepted :
  sanitizeSalesforceId (JString (lit " 006000000000001AAA "))
    = Some (lit "006000000000001AAA") /\
  opportunityIdList [JString (lit " 006000000000001AAA ")]
    = lit "'006000000000001AAA'".
Proof. split; reflexivity. Qed.

(** The pattern bounds the length by 15 and 18: a string of 16
    alphanumeric characters is accepted as well. *)
Example sanitize_sixteen_characters :
  sanitizeSalesforceId (JString (lit "0060000000000016"))
    = Some (lit "0060000000000016").
Proof. reflexivity. Qed.

Lemma C2_witness :
  sanitizeSalesforceId (JString (lit " 006000000000001AAA "))
    = Some (lit "006000000000001AAA") /\
  sanitizeSalesforceId (JString (lit "006' OR Name != '")) = None /\
  opportunityIdList
    ([JString (lit "006000000000001AAA")] ++ JString (lit "006' OR Name != '") :: [])
    = opportunityIdList ([JString (lit "006000000000001AAA")] ++ []) /\
  sameJob
    (provisionServices Fixture.formatNow 0 Fixture.jobId
       (JArray ([JString (lit "006000000000001AAA")]
                ++ JString (lit "006' OR Name != '") :: []))
       (Some (Fixture.clientOf (Fixture.simpleApi Fixture.someParameters) (Normal tt)))
       Fixture.callbackUrl 0%nat)
    (provisionServices Fixture.formatNow 0 Fixture.jobId
       (JArray ([JString (lit "006000000000001AAA")] ++ []))
       (Some (Fixture.clientOf (Fixture.simpleApi Fixture.someParameters) (Normal tt)))
       Fixture.callbackUrl 0%nat).
Proof.
  split; [| split].
  - apply (proj1 (C2_sanitization_and_the_query Fixture.formatNow
                    (lit " 006000000000001AAA ") JNull [] [] 0 Fixture.jobId None
                    Fixture.callbackUrl 0%nat)).
    + reflexivity.
    + right. reflexivity.
  - apply (proj1 (proj2 (C2_sanitization_and_the_query Fixture.formatNow
                    (lit "006' OR Name != '") JNull [] [] 0 Fixture.jobId None
                    Fixture.callbackUrl 0%nat))).
    left. reflexivity.
  - destruct (proj2 (proj2 (proj2 (proj2
               (C2_sanitization_and_the_query Fixture.formatNow
                  (lit "006' OR Name != '") (JString (lit "006' OR Name != '"))
                  [JString (lit "006000000000001AAA")] [] 0 Fixture.jobId
                  (Some (Fixture.clientOf (Fixture.simpleApi Fixture.someParameters)
                           (Normal tt)))
                  Fixture.callbackUrl 0%nat)))) eq_refl) as [Hquery Hjob].
    split; [exact Hquery |].
    apply Hjob. discriminate.
Defined.

Lemma C8_witness :
  is_Some (immediateTask Fixture.formatNow 0 Fixture.rejectedJob 0%nat) /\
  (length (requests Fixture.undeliveredTrace) <= 1)%nat /\
  exists bindings msg,
    Log level_error bindings msg
      ∈ [Log (World := Fixture.World) level_error
           [LErr "err" Fixture.unavailable; LStr "jobId" Fixture.jobId]
           (lit "Failed to execute provisioning callback for Job ID: " ++ Fixture.jobId)] /\
    LErr "err" Fixture.unavailable ∈ bindings /\
    mentionsJob Fixture.jobId bindings msg.
Proof.
  destruct (C8_failures_are_caught_and_logged Fixture.formatNow 0
              Fixture.rejectedJob 0%nat) as (Hreturns & _ & Hcaught).
  split.
  - apply Hreturns.
    intros c ctx org' soql Hc Hctx Horg.
    injection Hc as <-. injection Hctx as <-. injection Horg as <-.
    intros w1.
    unfold queryAll, try_catch, bind, await, Fixture.orgOf, Fixture.simpleApi,
      Fixture.pagedApi.
    cbn [dataApiOf context org dataApi query].
    destruct (bool_decide (soql = paramQuery)); eexists; reflexivity.
  - destruct (Hcaught (Normal tt) 5%nat Fixture.undeliveredTrace eq_refl)
      as (_ & Hrequests & Hraised).
    split; [exact Hrequests |].
    apply (Hraised (take 12 Fixture.undeliveredTrace) Fixture.unavailable
             (drop 13 Fixture.undeliveredTrace)).
    reflexivity.
Defined.

(** * Further properties of the code *)

(** ** Sanitization and the text of the query *)

Lemma alnum_range (c : N) : isAlnum c = true -> 48 <= c <= 122.
Proof.
  unfold isAlnum. intros H.
  apply orb_prop in H as [H | H]; [apply orb_prop in H as [H | H] |];
    apply andb_prop in H as [H1 H2];
    apply N.leb_le in H1; apply N.leb_le in H2; lia.
Qed.

Lemma alnum_not_white (c : N) : isAlnum c = true -> isWhiteSpace c = false.
Proof.
  intros H. apply alnum_range in H. unfold isWhiteSpace.
  rewrite (proj2 (N.leb_gt c 13)) by lia.
  rewrite (proj2 (N.leb_gt 8192 c)) by lia.
  rewrite !(proj2 (N.eqb_neq c _)) by lia.
  now rewrite andb_false_r.
Qed.

Lemma trimStart_alnum (s : jsstring) :
  forallb isAlnum s = true -> trimStart s = s.
Proof.
  destruct s as [| c s]; [reflexivity |]. simpl.
  intros H. apply andb_prop in H as [Hc _].
  now rewrite (alnum_not_white _ Hc).
Qed.

Lemma forallb_rev {A} (f : A -> bool) (l : list A) :
  forallb f (rev l) = forallb f l.
Proof.
  induction l as [| a l IH]; [reflexivity |]. simpl.
  rewrite forallb_app, IH. simpl. rewrite andb_true_r. apply andb_comm.
Qed.

Lemma trim_alnum (s : jsstring) : forallb isAlnum s = true -> trim s = s.
Proof.
  intros H. unfold trim, trimEnd.
  rewrite (trimStart_alnum s H), trimStart_alnum.
  - apply rev_involutive.
  - now rewrite forallb_rev.
Qed.

(** Sanitizing is idempotent: what [sanitizeSalesforceId] accepts is a
    string that matches the pattern, and sanitizing it again gives it
    back unchanged. *)
Theorem sanitize_accepted_is_fixed (id : JsValue) (t : jsstring) :
  sanitizeSalesforceId id = Some t ->
  salesforceIdPattern_test t = true /\
  sanitizeSalesforceId (JString t) = Some t.
Proof.
  destruct id; try discriminate. simpl.
  destruct (salesforceIdPattern_test (trim s)) eqn:Htest; [| discriminate].
  intros E. injection E as <-.
  split; [exact Htest |].
  assert (Halnum : forallb isAlnum (trim s) = true).
  { unfold salesforceIdPattern_test in Htest.
    apply andb_prop in Htest as [Htest _].
    now apply andb_prop in Htest as [Htest _]. }
  now rewrite (trim_alnum _ Halnum), Htest.
Qed.

Lemma sanitize_accepted_is_fixed_witness :
  salesforceIdPattern_test (lit "006000000000001AAA") = true /\
  sanitizeSalesforceId (JString (lit "006000000000001AAA"))
    = Some (lit "006000000000001AAA").
Proof.
  apply (sanitize_accepted_is_fixed
           (JString (lit "  006000000000001AAA  ")) (lit "006000000000001AAA")).
  reflexivity.
Defined.

Lemma join_chars (P : N -> bool) (sep : jsstring) (l : list jsstring) :
  forallb P sep = true ->
  Forall (fun s => forallb P s = true) l ->
  forallb P (join sep l) = true.
Proof.
  intros Hsep. induction 1 as [| s l Hs Hl IH]; [reflexivity |].
  destruct l as [| s' l]; [exact Hs |].
  change (join sep (s :: s' :: l)) with (s ++ sep ++ join sep (s' :: l)).
  now rewrite !forallb_app, Hs, Hsep, IH.
Qed.

(** Whatever the ids supplied, the id list placed in the query is made of
    alphanumeric characters, quotes and commas only: no character of an
    id can close the quote it stands in, or add to the query. *)
Theorem query_id_list_is_inert (opportunityIds : list JsValue) :
  forallb idListChar (opportunityIdList opportunityIds) = true.
Proof.
  unfold opportunityIdList. apply join_chars; [reflexivity |].
  apply Forall_forall. intros q Hq.
  apply list_elem_of_fmap in Hq as (i & -> & Hi).
  apply sanitizedIds_accepted in Hi as [Halnum _].
  unfold quote. rewrite !forallb_app. simpl.
  rewrite andb_true_r.
  clear -Halnum. induction i as [| c i IH]; [reflexivity |].
  simpl in *. apply andb_prop in Halnum as [Hc Hi].
  unfold idListChar at 1. now rewrite Hc, IH.
Qed.

(** ** The parameter mapping *)

(** The parameters as the worker reads them from the object built from
    the parameter records.  For each of the names [DefaultTier], [Region]
    and [Compliance]: a record that does not carry the name (a record
    without a name, or with any other name, [__proto__] included) leaves
    the value read under it as it was; a record that carries it sets the
    value read under it, so that of two records with the same name the
    later one wins; and when no record carries it, it reads as
    [undefined]. *)
Theorem parameters_last_record_wins (records : list SObject) (record : SObject)
    (name : string) :
  name ∈ parameterNames ->
  (f_Name__c (parameterFields record) <> Some (lit name) ->
   parameter (reduceParameters (records ++ [record])) name
   = parameter (reduceParameters records) name) /\
  (f_Name__c (parameterFields record) = Some (lit name) ->
   parameter (reduceParameters (records ++ [record])) name
   = f_Value__c (parameterFields record)) /\
  (Forall (fun r => f_Name__c (parameterFields r) <> Some (lit name)) records ->
   parameter (reduceParameters records) name = None).
Proof.
  intros Hin. unfold parameter. split; [| split].
  - intros Hother. now rewrite reduceParameters_snoc, addParameter_other.
  - intros Hname. now rewrite reduceParameters_snoc, (addParameter_named _ _ _ Hin Hname).
  - intros Hnone. now rewrite (reduceParameters_absent _ _ Hnone).
Qed.

Lemma parameters_last_record_wins_witness :
  parameter
    (reduceParameters
       ([Fixture.parameterRecord "Region" "EU";
         Fixture.parameterRecord "__proto__" "polluted";
         Fixture.parameterRecord "" "ignored"]
        ++ [Fixture.parameterRecord "Region" "APAC"])) "Region"
  = Some (lit "APAC") /\
  parameter
    (reduceParameters
       ([Fixture.parameterRecord "Region" "EU"]
        ++ [Fixture.parameterRecord "__proto__" "polluted"])) "Region"
  = Some (lit "EU") /\
  parameter (reduceParameters [Fixture.parameterRecord "Region" "EU"]) "DefaultTier"
  = None.
Proof.
  assert (Hregion : "Region"%string ∈ parameterNames)
    by apply list_elem_of_further, list_elem_of_here.
  assert (Htier : "DefaultTier"%string ∈ parameterNames)
    by apply list_elem_of_here.
  split; [| split].
  - apply (proj1 (proj2 (parameters_last_record_wins
             [Fixture.parameterRecord "Region" "EU";
              Fixture.parameterRecord "__proto__" "polluted";
              Fixture.parameterRecord "" "ignored"]
             (Fixture.parameterRecord "Region" "APAC") "Region" Hregion))).
    reflexivity.
  - rewrite (proj1 (parameters_last_record_wins
               [Fixture.parameterRecord "Region" "EU"]
               (Fixture.parameterRecord "__proto__" "polluted") "Region" Hregion));
      [reflexivity | discriminate].
  - apply (proj2 (proj2 (parameters_last_record_wins
             [Fixture.parameterRecord "Region" "EU"]
             (Fixture.parameterRecord "Region" "EU") "DefaultTier" Htier))).
    repeat constructor. discriminate.
Defined.

(** ** One ServiceResult for each child record *)

Section Items.

Context {World : Type} (formatNow : World -> jsstring * World).

Local Abbreviation Trace := (list (Event World)).

Lemma mockProvisionCall_result (c : ProvisionCall) :
  ensures (mockProvisionCall formatNow c) (fun r t =>
    exists sr ts,
      r = Normal sr /\ t = [SetTimeout 10000; FormatDate ts] /\
      serviceId sr = makeServiceId (pc_jobId c) (pc_counter c) /\
      opportunityId sr = pc_opportunityId c /\
      lineItemId sr = pc_lineItemId c /\
      productReference sr = pc_productLabel c /\
      status sr = lit "Provisioned").
Proof.
  intros w r w' t E. unfold mockProvisionCall, bind, emit, formatTimestamp, ret in E.
  destruct (formatNow w) as [ts w1].
  injection E as <- _ <-.
  eexists _, ts. repeat split.
Qed.

Lemma resultsFor_app (jobId : jsstring) (items1 items2 : list (SObject * LineItemSObject)) :
  forall (n : nat) (svcs1 svcs2 : list ServiceResult),
    resultsFor jobId n items1 svcs1 ->
    resultsFor jobId (n + length items1) items2 svcs2 ->
    resultsFor jobId n (items1 ++ items2) (svcs1 ++ svcs2).
Proof.
  induction items1 as [| item items1 IH]; intros n [| sr svcs1] svcs2; simpl;
    try contradiction.
  - intros _. now rewrite Nat.add_0_r.
  - intros [Hsr H1] H2. split; [exact Hsr |].
    apply IH; [exact H1 |].
    replace (S n + length items1)%nat with (n + S (length items1))%nat by lia.
    exact H2.
Qed.

Lemma resultsFor_length (jobId : jsstring) (items : list (SObject * LineItemSObject)) :
  forall (n : nat) (svcs : list ServiceResult),
    resultsFor jobId n items svcs -> length svcs = length items.
Proof.
  induction items as [| item items IH]; intros n [| sr svcs]; simpl;
    try contradiction; [reflexivity |].
  intros [_ H]. f_equal. now apply IH with (S n).
Qed.

Lemma timers_app (t1 t2 : Trace) : timers (t1 ++ t2) = timers t1 ++ timers t2.
Proof. apply omap_app. Qed.

Lemma itemsPost_nil (jobId : jsstring) (counter : nat) (services : list ServiceResult) :
  itemsPost (World := World) jobId counter services [] (Normal (counter, services)) [].
Proof.
  split; [simpl; lia |]. split; [reflexivity |].
  exists []. rewrite app_nil_r. split; reflexivity.
Qed.

Lemma itemsPost_trans (jobId : jsstring) (c c1 : nat) (s s1 : list ServiceResult)
    (items1 items2 : list (SObject * LineItemSObject))
    (r : Completion (nat * list ServiceResult)) (t1 t2 : Trace) :
  itemsPost jobId c s items1 (Normal (c1, s1)) t1 ->
  itemsPost jobId c1 s1 items2 r t2 ->
  itemsPost jobId c s (items1 ++ items2) r (t1 ++ t2).
Proof.
  intros (-> & Ht1 & new1 & -> & H1) H2.
  destruct r as [[c2 s2] | e]; [| exact I].
  destruct H2 as (-> & Ht2 & new2 & -> & H2).
  unfold itemsPost. rewrite length_app. split; [lia |].
  split; [now rewrite timers_app, Ht1, Ht2, replicate_add |].
  exists (new1 ++ new2). split; [now rewrite app_assoc |].
  apply resultsFor_app; [exact H1 |].
  now replace (S c + length items1)%nat with (S (c + length items1)) by lia.
Qed.

Lemma forEachLineItem_items (jobId : jsstring) (oppSObject : SObject) (opp : Fields)
    (params : gmap jsstring Val) (lineItems : list LineItemSObject) :
  so_fields oppSObject = Some opp ->
  forall (counter : nat) (services : list ServiceResult),
    ensures (forEachLineItem formatNow jobId (orElse (f_Id opp) (f_id opp)) params
               lineItems counter services)
            (itemsPost jobId counter services (map (pair oppSObject) lineItems)).
Proof.
  intros Hopp.
  induction lineItems as [| oliSObject rest IH]; intros counter services; simpl.
  - apply ensures_ret, itemsPost_nil.
  - apply ensures_bind, ensures_readOf; [| intros e _; exact I].
    intros oli Holi.
    apply ensures_bind.
    eapply ensures_weaken; [apply mockProvisionCall_result |].
    intros r t (sr & ts & -> & -> & Hid & Hopp' & Hli & Hprod & Hst).
    simpl in Hid, Hopp', Hli, Hprod.
    apply ensures_bind, ensures_emit.
    eapply ensures_weaken; [apply IH |].
    intros r t Hrest. simpl app.
    apply (itemsPost_trans jobId counter (counter + 1) services (services ++ [sr])
             [(oppSObject, oliSObject)] _ r [_; _; _] t); [| exact Hrest].
    split; [simpl; lia |]. split; [reflexivity |].
    exists [sr]. split; [reflexivity |].
    simpl. split; [| exact I].
    exists opp, oli. rewrite Nat.add_1_r in Hid. simpl. auto 10.
Qed.

Lemma forEachOpportunity_items (jobId : jsstring) (params : gmap jsstring Val)
    (opportunities : list SObject) :
  forall (counter : nat) (services : list ServiceResult),
    ensures (forEachOpportunity formatNow jobId params opportunities counter services)
            (itemsPost jobId counter services (workItems opportunities)).
Proof.
  unfold workItems.
  induction opportunities as [| oppSObject rest IH]; intros counter services; simpl.
  - apply ensures_ret, itemsPost_nil.
  - apply ensures_bind, ensures_readOf; [| intros e _; exact I].
    intros opp Hopp. unfold childrenOf.
    destruct (lineItemRecords oppSObject) as [lineItems |]; simpl.
    + apply ensures_bind.
      eapply ensures_weaken; [apply (forEachLineItem_items _ _ _ _ _ Hopp) |].
      intros [[c1 s1] | e] t1 H1; [| exact I].
      eapply ensures_weaken; [apply IH |].
      intros r t2 H2. simpl.
      now apply itemsPost_trans with c1 s1.
    + eapply ensures_weaken; [apply IH |].
      intros r t H. exact H.
Qed.

(** When the loops over the fetched parents complete, there is exactly one
    ServiceResult for each child record, in the order of the records: the
    i-th one carries the counter value i, the id of the parent, the id of
    the child and its product label; no child is skipped and none is
    provisioned twice.  The counter ends at the number of children. *)
Theorem one_result_for_each_child (jobId : jsstring) (params : gmap jsstring Val)
    (opportunities : list SObject) (w w' : World) (counter : nat)
    (services : list ServiceResult) (t : Trace) :
  forEachOpportunity formatNow jobId params opportunities 0 [] w
    = Some (Normal (counter, services), w', t) ->
  counter = length (workItems opportunities) /\
  length services = length (workItems opportunities) /\
  resultsFor jobId 1 (workItems opportunities) services.
Proof.
  intros Hrun.
  destruct (forEachOpportunity_items jobId params opportunities 0 [] _ _ _ _ Hrun)
    as (-> & _ & new & Hnew & Hresults).
  simpl in Hnew. subst new.
  split; [reflexivity |].
  split; [now apply resultsFor_length with jobId 1%nat | exact Hresults].
Qed.

(** When the loops complete, they have set one timer of 10 000 ms for each
    child record and no other: the children are provisioned one after the
    other, ten seconds each. *)
Theorem one_timer_for_each_child (jobId : jsstring) (params : gmap jsstring Val)
    (opportunities : list SObject) (w w' : World) (counter : nat)
    (services : list ServiceResult) (t : Trace) :
  forEachOpportunity formatNow jobId params opportunities 0 [] w
    = Some (Normal (counter, services), w', t) ->
  timers t = replicate (length (workItems opportunities)) 10000 /\
  length (timers t) = length services.
Proof.
  intros Hrun.
  destruct (forEachOpportunity_items jobId params opportunities 0 [] _ _ _ _ Hrun)
    as (_ & Ht & new & Hnew & Hresults).
  simpl in Hnew. subst new.
  split; [exact Ht |].
  now rewrite Ht, length_replicate, (resultsFor_length _ _ _ _ Hresults).
Qed.

End Items.

Lemma one_result_for_each_child_witness :
  length Sample.loopServices = 3%nat /\
  resultsFor Fixture.jobId 1
    (workItems [Fixture.parent1; Fixture.parent2; Fixture.parent3])
    Sample.loopServices.
Proof.
  destruct (one_result_for_each_child Fixture.formatNow Fixture.jobId ∅
              [Fixture.parent1; Fixture.parent2; Fixture.parent3]
              0%nat 3%nat 3%nat Sample.loopServices Sample.loopTrace eq_refl)
    as (_ & Hlength & Hresults).
  split; [exact Hlength | exact Hresults].
Defined.

Lemma one_timer_for_each_child_witness :
  timers Sample.loopTrace = [10000; 10000; 10000] /\
  length (timers Sample.loopTrace) = length Sample.loopServices.
Proof.
  apply (one_timer_for_each_child Fixture.formatNow Fixture.jobId ∅
           [Fixture.parent1; Fixture.parent2; Fixture.parent3]
           0%nat 3%nat 3%nat Sample.loopServices Sample.loopTrace eq_refl).
Defined.

(** ** The product label *)

Lemma truthyVal_orElse (a b : Val) :
  truthyVal (orElse a b) = truthyVal a || truthyVal b.
Proof. unfold orElse. now destruct (truthyVal a) eqn:Ha. Qed.

Lemma productLabelOf_truthy (oli : Fields) : truthyVal (productLabelOf oli) = true.
Proof.
  unfold productLabelOf. rewrite !truthyVal_orElse.
  apply orb_true_r.
Qed.

Lemma resultsFor_Forall (jobId : jsstring) (P : ServiceResult -> Prop)
    (items : list (SObject * LineItemSObject)) :
  (forall n item sr, resultFor jobId n item sr -> P sr) ->
  forall (n : nat) (svcs : list ServiceResult),
    resultsFor jobId n items svcs -> Forall P svcs.
Proof.
  intros HP. induction items as [| item items IH]; intros n [| sr svcs]; simpl;
    try contradiction; [constructor |].
  intros [Hsr Hrest]. constructor; [now apply HP with n item | now apply IH with (S n)].
Qed.

(** The product label never comes out empty: it is the name of the product
    when the record has one, else the id of the product, else the word
    Service.  So, when the loops complete, every ServiceResult carries a
    non-empty product reference. *)
Theorem every_result_names_a_product {World : Type}
    (formatNow : World -> jsstring * World) (jobId : jsstring)
    (params : gmap jsstring Val) (opportunities : list SObject) (w w' : World)
    (counter : nat) (services : list ServiceResult) (t : list (Event World))
    (oli : Fields) :
  forEachOpportunity formatNow jobId params opportunities 0 [] w
    = Some (Normal (counter, services), w', t) ->
  Forall (fun sr => truthyVal (productReference sr) = true) services /\
  truthyVal (productLabelOf oli) = true /\
  (f_Product2 oli = None -> truthyVal (f_Product2Id oli) = true ->
   productLabelOf oli = f_Product2Id oli) /\
  (f_Product2 oli = None -> truthyVal (f_Product2Id oli) = false ->
   productLabelOf oli = Some (lit "Service")).
Proof.
  intros Hrun. split; [| split; [| split]].
  - destruct (forEachOpportunity_items formatNow jobId params opportunities 0 []
                _ _ _ _ Hrun) as (_ & _ & new & Hnew & Hresults).
    simpl in Hnew. subst new.
    apply (resultsFor_Forall jobId _ (workItems opportunities)) with (n := 1%nat);
      [| exact Hresults].
    intros n item sr (opp & oli' & _ & _ & _ & _ & _ & -> & _).
    apply productLabelOf_truthy.
  - apply productLabelOf_truthy.
  - intros Hno Hid. unfold productLabelOf, orElse. rewrite Hno. simpl. now rewrite Hid.
  - intros Hno Hid. unfold productLabelOf, orElse. rewrite Hno. simpl. now rewrite Hid.
Qed.

Lemma every_result_names_a_product_witness :
  Forall (fun sr => truthyVal (productReference sr) = true) Sample.loopServices /\
  productLabelOf Fixture.noFields = Some (lit "Service").
Proof.
  destruct (every_result_names_a_product Fixture.formatNow Fixture.jobId ∅
              [Fixture.parent1; Fixture.parent2; Fixture.parent3]
              0%nat 3%nat 3%nat Sample.loopServices Sample.loopTrace
              Fixture.noFields eq_refl) as (Hall & _ & _ & Hdefault).
  split; [exact Hall | exact (Hdefault eq_refl eq_refl)].
Defined.

(** ** How the record fetch ends *)

Section Fetching.

Context {World : Type}.

Local Abbreviation Trace := (list (Event World)).

Lemma queryMoreLoop_fetched (api : DataApi World) (p : QueryResult) (w : World)
    (ps : list QueryResult) (w' : World) :
  Fetched api p w ps w' ->
  forall (fuel : nat) (allRecords : list SObject),
    (length ps <= fuel)%nat ->
    queryMoreLoop fuel api p allRecords w =
    Some (Normal (allRecords ++ concat (map records ps)), w',
          map QueryMore (take (length ps) (p :: ps))).
Proof.
  induction 1 as [p w Hstop | p w p' w' ps w'' Hmore Hcall Hrest IH];
    intros fuel allRecords Hfuel.
  - destruct fuel; simpl; rewrite Hstop; unfold ret; now rewrite app_nil_r.
  - destruct fuel as [| fuel]; [simpl in Hfuel; lia |].
    simpl. rewrite Hmore.
    unfold bind, await. rewrite Hcall.
    rewrite (IH fuel (allRecords ++ records p')) by (simpl in Hfuel; lia).
    now rewrite <- app_assoc.
Qed.

(** The fetch ends at the first page that reports completion or that
    carries no continuation token, and returns the records gathered up to
    that page.  In particular a page that reports more ([done] false)
    without a token ends the fetch normally: what was gathered is returned
    as the whole result, without error. *)
Theorem fetch_ends_without_token (api : DataApi World) (sfContext : Client World)
    (soql : jsstring) (w w1 w2 : World) (p0 : QueryResult)
    (ps : list QueryResult) (fuel : nat) :
  dataApiOf sfContext = Some api ->
  query api soql w = (Normal p0, w1) ->
  Fetched api p0 w1 ps w2 ->
  (length ps <= fuel)%nat ->
  queryAll fuel soql sfContext w =
  Some (Normal (concat (map records (p0 :: ps))), w2,
        Query soql :: map QueryMore (take (length ps) (p0 :: ps))).
Proof.
  intros Hapi Hquery Hfetched Hfuel.
  unfold queryAll, try_catch. rewrite Hapi.
  unfold bind, await. rewrite Hquery.
  now rewrite (queryMoreLoop_fetched _ _ _ _ _ Hfetched fuel _ Hfuel).
Qed.

Lemma queryMoreLoop_thrown (api : DataApi World) (fuel : nat) :
  forall (p : QueryResult) (allRecords : list SObject),
    ensures (queryMoreLoop fuel api p allRecords) (fun r t =>
      match r with
      | Normal _ => True
      | Throw e => exists t0, t = t0 ++ [Raised e] /\ quiet t0
      end).
Proof.
  induction fuel as [| fuel IH]; intros p allRecords; simpl;
    destruct (negb (done p) && truthyVal (nextRecordsUrl p)).
  - intros w r w' t E. discriminate.
  - now apply ensures_ret.
  - apply ensures_bind, ensures_await.
    + intros p'. eapply ensures_weaken; [apply IH |].
      intros [rs | e] t; [auto |].
      intros (t0 & -> & Hquiet). exists (QueryMore p :: t0). split; [reflexivity | exact Hquiet].
    + intros e. exists [QueryMore p]. split; reflexivity.
  - now apply ensures_ret.
Qed.

Lemma queryAll_thrown (fuel : nat) (soql : jsstring) (sfContext : Client World) :
  ensures (queryAll fuel soql sfContext) (fun r t =>
    forall e, r = Throw e ->
      exists t0, quiet t0 /\
        t = t0 ++ [Raised e;
                   Log level_error [LErr "err" e; LStr "soql" soql]
                     (lit "Error during queryAll execution")]).
Proof.
  unfold queryAll. apply ensures_try_catch.
  assert (Hbody : ensures
    (match dataApiOf sfContext with
     | Some api =>
         bind (await (Query soql) (query api soql))
           (fun result => queryMoreLoop fuel api result ([] ++ records result))
     | None => throw (Error (lit "No dataApi available in sfContext"))
     end)
    (fun r t => match r with
                | Normal _ => True
                | Throw e => exists t0, t = t0 ++ [Raised e] /\ quiet t0
                end)).
  { destruct (dataApiOf sfContext) as [api |].
    - apply ensures_bind, ensures_await.
      + intros p0. eapply ensures_weaken; [apply queryMoreLoop_thrown |].
        intros [rs | e] t; [auto |].
        intros (t0 & -> & Hquiet). exists (Query soql :: t0).
        split; [reflexivity | exact Hquiet].
      + intros e. exists [Query soql]. split; reflexivity.
    - apply ensures_throw. exists []. split; reflexivity. }
  eapply ensures_weaken; [exact Hbody |].
  intros [rs | e] t1 H1; [intros e; discriminate |].
  destruct H1 as (t0 & -> & Hquiet).
  apply ensures_bind, ensures_emit, ensures_rethrow.
  intros e' E. injection E as <-.
  exists t0. split; [exact Hquiet |]. now rewrite <- app_assoc.
Qed.

(** When the fetch fails, it returns no record at all, whatever it had
    gathered: the exception that arose, in the first query or in any
    [queryMore], is logged once together with the text of the query, and
    the same exception is thrown on to the caller.  Without a data API in
    the context, that exception is the error of [queryAll] itself and the
    data source is not called. *)
Theorem fetch_failure_is_logged_and_rethrown (fuel : nat) (soql : jsstring)
    (sfContext : Client World) (w w' : World) (r : Completion (list SObject))
    (t : Trace) :
  queryAll fuel soql sfContext w = Some (r, w', t) ->
  (forall e, r = Throw e ->
     exists t0,
       quiet t0 /\
       t = t0 ++ [Raised e;
                  Log level_error [LErr "err" e; LStr "soql" soql]
                    (lit "Error during queryAll execution")]) /\
  (dataApiOf sfContext = None ->
   r = Throw (Error (lit "No dataApi available in sfContext")) /\ w' = w /\
   queries t = []).
Proof.
  intros Hrun. split.
  - exact (queryAll_thrown fuel soql sfContext w r w' t Hrun).
  - intros Hnone. revert Hrun.
    unfold queryAll, try_catch, throw, bind, logger_error, emit, rethrow.
    rewrite Hnone. intros E. injection E as <- <- <-. repeat split.
Qed.

End Fetching.

Lemma fetch_ends_without_token_witness :
  queryAll 5 (oppQuery (opportunityIdList (elements Fixture.requestedIds)))
    (Fixture.clientOf Sample.truncatedApi (Normal tt)) 0%nat =
  Some (Normal [Fixture.parent1; Fixture.parent2], 2%nat,
        [Query (oppQuery (opportunityIdList (elements Fixture.requestedIds)));
         QueryMore (Fixture.morePage [Fixture.parent1] "/next/2")]).
Proof.
  apply (fetch_ends_without_token Sample.truncatedApi
           (Fixture.clientOf Sample.truncatedApi (Normal tt))
           (oppQuery (opportunityIdList (elements Fixture.requestedIds)))
           0%nat 1%nat 2%nat
           (Fixture.morePage [Fixture.parent1] "/next/2")
           [Sample.danglingPage [Fixture.parent2]] 5%nat).
  - reflexivity.
  - reflexivity.
  - eapply Fetched_more; [reflexivity | reflexivity |].
    apply Fetched_stop. reflexivity.
  - simpl. lia.
Defined.

Lemma fetch_failure_is_logged_and_rethrown_witness :
  (exists t0,
     quiet t0 /\
     Fixture.traceOf
       (queryAll 5 (lit "SELECT Id FROM Opportunity")
          (Fixture.clientOf Sample.brokenApi (Normal tt)) 0%nat)
     = t0 ++ [Raised Fixture.unavailable;
              Log level_error [LErr "err" Fixture.unavailable;
                               LStr "soql" (lit "SELECT Id FROM Opportunity")]
                (lit "Error during queryAll execution")]) /\
  queries (Fixture.traceOf
             (queryAll (World := Fixture.World) 5 (lit "SELECT Id FROM Opportunity")
                {| context := Some {| org := None |} |} 0%nat)) = [].
Proof.
  split.
  - apply (proj1 (fetch_failure_is_logged_and_rethrown 5 (lit "SELECT Id FROM Opportunity")
                    (Fixture.clientOf Sample.brokenApi (Normal tt)) 0%nat 2%nat
                    (Throw Fixture.unavailable)
                    (Fixture.traceOf
                       (queryAll 5 (lit "SELECT Id FROM Opportunity")
                          (Fixture.clientOf Sample.brokenApi (Normal tt)) 0%nat))
                    eq_refl) Fixture.unavailable eq_refl).
  - apply (proj2 (fetch_failure_is_logged_and_rethrown (World := Fixture.World) 5
                    (lit "SELECT Id FROM Opportunity")
                    {| context := Some {| org := None |} |} 0%nat 0%nat
                    (Throw (Error (lit "No dataApi available in sfContext")))
                    (Fixture.traceOf
                       (queryAll (World := Fixture.World) 5
                          (lit "SELECT Id FROM Opportunity")
                          {| context := Some {| org := None |} |} 0%nat))
                    eq_refl) eq_refl).
Defined.

(** ** Edges of the worker *)

Section WorkerEdges.

Context {World : Type} (formatNow : World -> jsstring * World).

Local Abbreviation Trace := (list (Event World)).

(** Whatever is not a non-empty array (nothing, [null], a string, a
    number, an object, the empty array) stops the worker at its first
    test: it logs one warning with the job id and does nothing else, it
    does not even look at the client. *)
Theorem worker_needs_a_list_of_ids (fuel : nat) (jobId : jsstring)
    (opportunityIds : JsValue) (client : option (Client World))
    (callbackUrl : JsValue) (w : World) :
  (forall id0 ids, opportunityIds <> JArray (id0 :: ids)) ->
  provisionServices formatNow fuel jobId opportunityIds client callbackUrl w
  = Some (Normal tt, w,
          [Log level_warn [] (lit "No opportunityIds provided for Job ID: " ++ jobId)]).
Proof.
  intros Hnot.
  destruct opportunityIds as [| | [] | z | s | [| id0 ids] |]; try reflexivity.
  - unfold provisionServices. simpl. now destruct (z =? 0)%Z.
  - unfold provisionServices. simpl. now destruct (bool_decide (s = [])).
  - now destruct (Hnot id0 ids).
Qed.

Lemma requests_batch_without_url (fuel : nat) (jobId : jsstring) (ids : JsValue)
    (client : option (Client World)) (cb : JsValue) :
  truthy cb = false ->
  ensures (provisionBatch formatNow fuel jobId ids client cb)
          (fun r t => requests t = []).
Proof.
  intros Hcb. unfold provisionBatch.
  apply ensures_bind.
  destruct client as [client' |]; [apply ensures_ret | now apply ensures_throw].
  apply ensures_bind, ensures_readOf; [intros context' _ | reflexivity].
  apply ensures_bind, ensures_readOf; [intros org' _ | reflexivity].
  simpl app.
  destruct (dataApi org') as [dataApi' |]; [| now apply ensures_emit].
  apply ensures_bind, ensures_await; [| reflexivity].
  intros paramResult. apply ensures_bind.
  eapply ensures_weaken; [apply queryAll_spec |].
  intros [opportunities | e] tq [_ [Hq _]];
    [| now rewrite (requests_app [_] tq), Hq].
  apply ensures_bind, ensures_emit, ensures_bind.
  eapply ensures_weaken; [apply forEachOpportunity_spec |].
  intros [[c svcs] | e] tl (_ & Hl & _);
    [| now rewrite (requests_app [_] (tq ++ [_] ++ tl)), !requests_app, Hq, Hl].
  simpl snd.
  destruct (length svcs =? 0)%nat.
  - apply ensures_emit.
    now rewrite (requests_app [_] (tq ++ [_] ++ tl ++ [_])), !requests_app, Hq, Hl.
  - apply ensures_bind, ensures_emit. rewrite Hcb. simpl negb.
    apply ensures_emit.
    now rewrite (requests_app [_] (tq ++ [_] ++ tl ++ [_] ++ [_])),
      !requests_app, Hq, Hl.
Qed.

Lemma requests_worker_without_url (fuel : nat) (jobId : jsstring) (ids : JsValue)
    (client : option (Client World)) (cb : JsValue) :
  truthy cb = false ->
  ensures (provisionServices formatNow fuel jobId ids client cb)
          (fun r t => requests t = []).
Proof.
  intros Hcb. unfold provisionServices.
  destruct (negb (truthy ids) || negb (isArray ids)
            || (length (elements ids) =? 0)%nat);
    [now apply ensures_emit |].
  apply ensures_bind, ensures_emit, ensures_try_catch.
  eapply ensures_weaken; [now apply requests_batch_without_url |].
  intros [[] | e] t Ht; simpl in Ht.
  - now rewrite (requests_app [_] t), Ht.
  - apply ensures_emit. now rewrite (requests_app [_] (t ++ [_])), requests_app, Ht.
Qed.

(** Without a callback address (none, [null], the empty string) the worker
    makes no callback call in any run, whatever it has provisioned. *)
Theorem no_callback_address_no_call (fuel : nat) (jobId : jsstring)
    (opportunityIds : JsValue) (client : option (Client World))
    (callbackUrl : JsValue) (w w' : World) (r : Completion unit) (t : Trace) :
  truthy callbackUrl = false ->
  provisionServices formatNow fuel jobId opportunityIds client callbackUrl w
    = Some (r, w', t) ->
  requests t = [].
Proof.
  intros Hcb Hrun.
  exact (requests_worker_without_url fuel jobId opportunityIds client callbackUrl
           Hcb w r w' t Hrun).
Qed.

(** Without a data API in the client (no client, no context, no org, or
    no [dataApi] in the org) the worker makes no call to the outside: it
    logs the start of the job, then one error that names the job, and
    ends normally, leaving the world as it was. *)
Theorem worker_without_data_api (fuel : nat) (jobId : jsstring)
    (id0 : JsValue) (ids : list JsValue) (client : option (Client World))
    (callbackUrl : JsValue) (w : World) :
  contextMissing client = true ->
  exists entry,
    provisionServices formatNow fuel jobId (JArray (id0 :: ids)) client callbackUrl w
    = Some (Normal tt, w,
            Log level_info []
              (lit "Processing provisioning job " ++ jobId ++ lit " for "
               ++ numberToString (length (id0 :: ids)) ++ lit " opportunity IDs")
            :: entry) /\
    (entry = [Log level_error []
                (lit "Failed to get valid Salesforce context for provisioning job "
                 ++ jobId)] \/
     exists e,
       entry = [Raised e;
                Log level_error [LErr "err" e]
                  (lit "Error executing provisioning batch for Job ID: " ++ jobId)]).
Proof.
  intros Hmissing. rewrite provisionServices_nonempty.
  unfold contextMissing, dataApiOf in Hmissing.
  assert (Hbatch :
    provisionBatch formatNow fuel jobId (JArray (id0 :: ids)) client callbackUrl w
    = Some (Normal tt, w,
            [Log level_error []
               (lit "Failed to get valid Salesforce context for provisioning job "
                ++ jobId)]) \/
    exists e,
      provisionBatch formatNow fuel jobId (JArray (id0 :: ids)) client callbackUrl w
      = Some (Throw e, w, [Raised e])).
  { unfold provisionBatch. destruct client as [c |]; [| right; eexists; reflexivity].
    rewrite bind_ret.
    destruct (context c) as [ctx |] eqn:Hctx; [| right; eexists; reflexivity].
    simpl readOf. rewrite bind_ret.
    destruct (org ctx) as [org' |] eqn:Horg; [| right; eexists; reflexivity].
    simpl readOf. rewrite bind_ret.
    destruct (dataApi org') as [api |] eqn:Hapi; [discriminate |].
    left. reflexivity. }
  destruct Hbatch as [Hbatch | [e Hbatch]].
  - rewrite (try_catch_normal _ _ _ _ _ _ Hbatch).
    eexists. split; [reflexivity | left; reflexivity].
  - rewrite (try_catch_thrown _ _ _ _ _ _ Hbatch).
    eexists. split; [reflexivity | right; exists e; reflexivity].
Qed.

End WorkerEdges.

Lemma worker_needs_a_list_of_ids_witness :
  provisionServices Fixture.formatNow 0 Fixture.jobId (JString (lit "006000000000001AAA"))
    (Some (Fixture.clientOf (Fixture.simpleApi Fixture.noParameters) (Normal tt)))
    Fixture.callbackUrl 0%nat
  = Some (Normal tt, 0%nat,
          [Log level_warn []
             (lit "No opportunityIds provided for Job ID: " ++ Fixture.jobId)]).
Proof.
  apply (worker_needs_a_list_of_ids Fixture.formatNow 0 Fixture.jobId
           (JString (lit "006000000000001AAA"))
           (Some (Fixture.clientOf (Fixture.simpleApi Fixture.noParameters) (Normal tt)))
           Fixture.callbackUrl 0%nat).
  discriminate.
Defined.

Lemma no_callback_address_no_call_witness :
  requests (Fixture.traceOf
    (provisionServices Fixture.formatNow 0 Fixture.jobId Fixture.requestedIds
       (Some (Fixture.clientOf (Fixture.simpleApi Fixture.noParameters) (Normal tt)))
       (JString []) 0%nat)) = [] /\
  length (serviceIdsLogged (Fixture.traceOf
    (provisionServices Fixture.formatNow 0 Fixture.jobId Fixture.requestedIds
       (Some (Fixture.clientOf (Fixture.simpleApi Fixture.noParameters) (Normal tt)))
       (JString []) 0%nat))) = 2%nat.
Proof.
  split; [| reflexivity].
  apply (no_callback_address_no_call Fixture.formatNow 0 Fixture.jobId
           Fixture.requestedIds
           (Some (Fixture.clientOf (Fixture.simpleApi Fixture.noParameters) (Normal tt)))
           (JString []) 0%nat 4%nat (Normal tt)).
  - reflexivity.
  - reflexivity.
Defined.

Lemma worker_without_data_api_witness :
  exists entry,
    provisionServices (World := Fixture.World) Fixture.formatNow 0 Fixture.jobId
      (JArray [JString (lit "006000000000001AAA")])
      (Some {| context := Some {| org := None |} |}) Fixture.callbackUrl 0%nat
    = Some (Normal tt, 0%nat,
            Log level_info []
              (lit "Processing provisioning job " ++ Fixture.jobId ++ lit " for "
               ++ numberToString 1 ++ lit " opportunity IDs")
            :: entry) /\
    (entry = [Log level_error []
                (lit "Failed to get valid Salesforce context for provisioning job "
                 ++ Fixture.jobId)] \/
     exists e,
       entry = [Raised e;
                Log level_error [LErr "err" e]
                  (lit "Error executing provisioning batch for Job ID: " ++ Fixture.jobId)]).
Proof.
  apply (worker_without_data_api (World := Fixture.World) Fixture.formatNow 0
           Fixture.jobId (JString (lit "006000000000001AAA")) []
           (Some {| context := Some {| org := None |} |}) Fixture.callbackUrl 0%nat).
  reflexivity.
Defined.

(** ** A job from its records to its callback *)

Section Delivery.

Context {World : Type} (formatNow : World -> jsstring * World).

Local Abbreviation Trace := (list (Event World)).

Lemma forEachLineItem_unreadable (jobId : jsstring) (oppId : Val)
    (params : gmap jsstring Val) (lineItems : list LineItemSObject) :
  Exists (fun oli => li_fields oli = None) lineItems ->
  forall (counter : nat) (services : list ServiceResult),
    ensures (forEachLineItem formatNow jobId oppId params lineItems counter services)
            (fun r t => exists e, r = Throw e).
Proof.
  induction 1 as [oli rest Holi | oli rest Hrest IH]; intros counter services; simpl.
  - rewrite Holi. apply ensures_bind, ensures_throw. eauto.
  - apply ensures_bind, ensures_readOf; [| eauto].
    intros f _. apply ensures_bind.
    eapply ensures_weaken; [apply mockProvisionCall_spec |].
    intros r t (sr & ts & -> & _). apply ensures_bind, ensures_emit.
    eapply ensures_weaken; [apply IH |]. auto.
Qed.

Lemma forEachOpportunity_unreadable (jobId : jsstring) (params : gmap jsstring Val)
    (opportunities : list SObject) :
  Exists unreadable opportunities ->
  forall (counter : nat) (services : list ServiceResult),
    ensures (forEachOpportunity formatNow jobId params opportunities counter services)
            (fun r t => exists e, r = Throw e).
Proof.
  induction 1 as [o rest Ho | o rest Hrest IH]; intros counter services; simpl.
  - destruct Ho as [Hfields | Hchildren].
    + rewrite Hfields. apply ensures_bind, ensures_throw. eauto.
    + apply ensures_bind, ensures_readOf; [| eauto].
      intros f _. unfold childrenOf in Hchildren.
      destruct (lineItemRecords o) as [lineItems |]; [| now apply Exists_nil in Hchildren].
      apply ensures_bind.
      eapply ensures_weaken; [now apply forEachLineItem_unreadable |].
      intros r t [e ->]. eauto.
  - apply ensures_bind, ensures_readOf; [| eauto].
    intros f _.
    destruct (lineItemRecords o) as [lineItems |].
    + apply ensures_bind.
      eapply ensures_weaken; [apply forEachLineItem_spec |].
      intros [[c1 s1] | e] t1 _; [| eauto].
      eapply ensures_weaken; [apply IH |]. auto.
    + eapply ensures_weaken; [apply IH |]. auto.
Qed.

(** The batch, once the client is read and the parameters are fetched. *)
Lemma provisionBatch_fetched (fuel : nat) (jobId : jsstring) (ids : JsValue)
    (c : Client World) (ctx : OrgContext World) (org' : Org World)
    (api : DataApi World) (cb : JsValue) (w w1 : World) (paramResult : QueryResult) :
  context c = Some ctx -> org ctx = Some org' -> dataApi org' = Some api ->
  query api paramQuery w = (Normal paramResult, w1) ->
  provisionBatch formatNow fuel jobId ids (Some c) cb w
  = after [Query paramQuery]
      (bind (queryAll fuel (oppQuery (opportunityIdList (elements ids)))
               {| context := Some {| org := Some org' |} |})
         (fun opportunities =>
            bind (logger_info []
                    (lit "Processing " ++ numberToString (length opportunities)
                     ++ lit " Opportunities for provisioning"))
              (fun _ =>
                 bind (forEachOpportunity formatNow jobId
                         (reduceParameters (records paramResult)) opportunities 0%nat [])
                   (fun r =>
                      let services := snd r in
                      if (length services =? 0)%nat then
                        logger_warn []
                          (lit "No services were generated for provisioning job "
                           ++ jobId ++ lit ".")
                      else
                        let summary := jobSummary services in
                        bind (logger_info []
                                (lit "Provisioning job " ++ jobId ++ lit " completed. "
                                 ++ numberToString (succeeded summary)
                                 ++ lit " services provisioned."))
                          (fun _ =>
                             if negb (truthy cb) then
                               logger_warn []
                                 (lit "No callbackUrl provided for provisioning job "
                                  ++ jobId ++ lit ", skipping callback execution")
                             else
                               try_catch
                                 (let callbackResults :=
                                    {| cb_jobId := jobId;
                                       cb_opportunityIds := ids;
                                       cb_services := services;
                                       cb_summary := summary;
                                       cb_status := lit "completed";
                                       cb_errors := [] |} in
                                  let requestOptions :=
                                    {| method := lit "POST";
                                       headers := [(lit "Content-Type",
                                                    lit "application/json")];
                                       body := callbackResults |} in
                                  bind (await (Request cb requestOptions)
                                          (request org' cb requestOptions))
                                    (fun _ =>
                                       logger_info []
                                         (lit "Provisioning callback executed successfully for Job ID: "
                                          ++ jobId ++ lit ". Services returned: "
                                          ++ numberToString (length services))))
                                 (fun callbackError =>
                                    logger_error [LErr "err" callbackError;
                                                  LStr "jobId" jobId]
                                      (lit "Failed to execute provisioning callback for Job ID: "
                                       ++ jobId)))))) w1).
Proof.
  intros Hctx Horg Hapi Hparam. unfold provisionBatch.
  rewrite bind_ret, Hctx. simpl readOf.
  rewrite bind_ret, Horg. simpl readOf.
  rewrite bind_ret, Hapi.
  now rewrite (bind_await_normal _ _ _ _ _ _ Hparam).
Qed.


Lemma after_inv {A} (evs : Trace) (run : option (Completion A * World * Trace))
    (r : Completion A) (w' : World) (t : Trace) :
  after evs run = Some (r, w', t) ->
  exists t', run = Some (r, w', t') /\ t = evs ++ t'.
Proof.
  destruct run as [[[r0 w0] t0] |]; [| discriminate].
  simpl. intros E. injection E as -> -> <-. eauto.
Qed.

Lemma bind_started {A B} (m : M World A) (k : A -> M World B) (w w' : World)
    (r : Completion B) (t : Trace) :
  bind m k w = Some (r, w', t) ->
  exists r1 w1 t1 t2, m w = Some (r1, w1, t1) /\ t = t1 ++ t2.
Proof.
  unfold bind. destruct (m w) as [[[[a | e] w1] t1] |]; [| | discriminate].
  - destruct (k a w1) as [[[r2 w2] t2] |]; [| discriminate].
    intros E. injection E as _ _ <-. eauto 8.
  - intros E. injection E as _ _ <-. exists (Throw e), w1, t1, []. now rewrite app_nil_r.
Qed.

Lemma try_catch_started {A} (body : M World A) (handler : JsError -> M World A)
    (w w' : World) (r : Completion A) (t : Trace) :
  try_catch body handler w = Some (r, w', t) ->
  exists r1 w1 t1 t2, body w = Some (r1, w1, t1) /\ t = t1 ++ t2.
Proof.
  unfold try_catch. destruct (body w) as [[[[a | e] w1] t1] |]; [| | discriminate].
  - intros E. injection E as _ _ <-. exists (Normal a), w1, t1, []. now rewrite app_nil_r.
  - destruct (handler e w1) as [[[r2 w2] t2] |]; [| discriminate].
    simpl. intros E. injection E as _ _ <-. eauto 8.
Qed.

Lemma queryAll_first_query (fuel : nat) (soql : jsstring) (sfContext : Client World)
    (api : DataApi World) (w w' : World) (r : Completion (list SObject)) (t : Trace) :
  dataApiOf sfContext = Some api ->
  queryAll fuel soql sfContext w = Some (r, w', t) ->
  exists rest, t = Query soql :: rest.
Proof.
  intros Hapi Hrun. unfold queryAll in Hrun. rewrite Hapi in Hrun.
  apply try_catch_started in Hrun as (r1 & w1 & t1 & t2 & Hbody & ->).
  unfold bind, await in Hbody.
  destruct (query api soql w) as [[p | e] w0].
  - destruct (queryMoreLoop fuel api p ([] ++ records p) w0) as [[[r2 w2] t3] |];
      [| discriminate].
    injection Hbody as _ _ <-. eauto.
  - injection Hbody as _ _ <-. eauto.
Qed.

(** The ids the worker sanitizes all being rejected, no id is left. *)
Lemma sanitizedIds_all_rejected (ids : list JsValue) :
  Forall (fun v => sanitizeSalesforceId v = None) ids -> sanitizedIds ids = [].
Proof.
  induction 1 as [| v rest Hv _ IH]; [reflexivity |].
  change (v :: rest) with ([v] ++ rest).
  now rewrite sanitizedIds_app, (sanitizedIds_rejected _ Hv), IH.
Qed.

(** With a data API and the parameters fetched, the second query of the
    worker is the record query over the accepted ids, whatever happens
    next.  In particular, when every submitted id is rejected, the record
    query is still sent, with nothing between the brackets of its
    [IN (...)] list. *)
Theorem record_query_is_sent_with_the_accepted_ids (fuel : nat) (jobId : jsstring)
    (id0 : JsValue) (ids : list JsValue) (c : Client World) (ctx : OrgContext World)
    (org' : Org World) (api : DataApi World) (cb : JsValue) (w w1 w' : World)
    (paramResult : QueryResult) (r : Completion unit) (t : Trace) :
  context c = Some ctx -> org ctx = Some org' -> dataApi org' = Some api ->
  query api paramQuery w = (Normal paramResult, w1) ->
  provisionServices formatNow fuel jobId (JArray (id0 :: ids)) (Some c) cb w
    = Some (r, w', t) ->
  (exists rest,
     queries t = paramQuery :: oppQuery (opportunityIdList (id0 :: ids)) :: rest) /\
  (Forall (fun v => sanitizeSalesforceId v = None) (id0 :: ids) ->
   opportunityIdList (id0 :: ids) = []).
Proof.
  intros Hctx Horg Hapi Hparam Hrun. split.
  - rewrite provisionServices_nonempty in Hrun.
    apply after_inv in Hrun as (t1 & Hrun & ->).
    apply try_catch_started in Hrun as (r2 & w2 & t2 & t3 & Hbatch & ->).
    rewrite (provisionBatch_fetched fuel jobId _ c ctx org' api cb w w1
               paramResult Hctx Horg Hapi Hparam) in Hbatch.
    apply after_inv in Hbatch as (t4 & Hbatch & ->).
    apply bind_started in Hbatch as (r5 & w5 & t5 & t6 & Hquery & ->).
    apply (queryAll_first_query fuel _ _ api) in Hquery as [rest ->];
      [| unfold dataApiOf; simpl; exact Hapi].
    simpl elements. unfold queries. simpl omap.
    eexists. reflexivity.
  - intros Hrejected. unfold opportunityIdList.
    now rewrite (sanitizedIds_all_rejected _ Hrejected).
Qed.

(** When the record query fails, in its first call or in any [queryMore],
    nothing is provisioned and no callback is made: the worker ends
    normally, and the failure is logged twice, once by [queryAll] with the
    text of the query and once by the worker with the job id. *)
Theorem record_query_failure_ends_the_job (fuel : nat) (jobId : jsstring)
    (id0 : JsValue) (ids : list JsValue) (c : Client World) (ctx : OrgContext World)
    (org' : Org World) (api : DataApi World) (cb : JsValue) (w w1 w2 : World)
    (paramResult : QueryResult) (e : JsError) (tq : Trace) :
  context c = Some ctx -> org ctx = Some org' -> dataApi org' = Some api ->
  query api paramQuery w = (Normal paramResult, w1) ->
  queryAll fuel (oppQuery (opportunityIdList (id0 :: ids)))
    {| context := Some {| org := Some org' |} |} w1 = Some (Throw e, w2, tq) ->
  exists t0,
    provisionServices formatNow fuel jobId (JArray (id0 :: ids)) (Some c) cb w
    = Some (Normal tt, w2,
            [Log level_info []
               (lit "Processing provisioning job " ++ jobId ++ lit " for "
                ++ numberToString (length (id0 :: ids)) ++ lit " opportunity IDs");
             Query paramQuery]
            ++ t0
            ++ [Raised e;
                Log level_error
                  [LErr "err" e;
                   LStr "soql" (oppQuery (opportunityIdList (id0 :: ids)))]
                  (lit "Error during queryAll execution");
                Log level_error [LErr "err" e]
                  (lit "Error executing provisioning batch for Job ID: " ++ jobId)]) /\
    quiet t0 /\ requests t0 = [] /\ serviceIdsLogged t0 = [].
Proof.
  intros Hctx Horg Hapi Hparam Hquery.
  destruct (queryAll_thrown fuel _ _ _ _ _ _ Hquery e eq_refl) as (t0 & Hquiet & ->).
  destruct (queryAll_spec fuel _ _ _ _ _ _ Hquery) as [_ [Hreq Hids]].
  rewrite requests_app in Hreq. apply app_eq_nil in Hreq as [Hreq _].
  rewrite serviceIdsLogged_app in Hids. apply app_eq_nil in Hids as [Hids _].
  exists t0. split; [| auto].
  rewrite provisionServices_nonempty.
  assert (Hbatch :
    provisionBatch formatNow fuel jobId (JArray (id0 :: ids)) (Some c) cb w
    = Some (Throw e, w2,
            Query paramQuery
            :: t0 ++ [Raised e;
                      Log level_error
                        [LErr "err" e;
                         LStr "soql" (oppQuery (opportunityIdList (id0 :: ids)))]
                        (lit "Error during queryAll execution")])).
  { rewrite (provisionBatch_fetched fuel jobId _ c ctx org' api cb w w1
               paramResult Hctx Horg Hapi Hparam).
    simpl elements. now rewrite (bind_thrown _ _ _ _ _ _ Hquery). }
  rewrite (try_catch_thrown _ _ _ _ _ _ Hbatch).
  unfold logger_error, emit, after. simpl app.
  now rewrite <- app_assoc.
Qed.

(** The run of the loops over fetched parents of which one cannot be
    read. *)
Lemma forEachOpportunity_aborted (jobId : jsstring) (params : gmap jsstring Val)
    (opportunities : list SObject) (w : World) :
  Exists unreadable opportunities ->
  exists e w' t,
    forEachOpportunity formatNow jobId params opportunities 0 [] w
    = Some (Throw e, w', t) /\ requests t = [].
Proof.
  intros Hbad.
  destruct (returns_forEachOpportunity formatNow jobId params opportunities 0 [] w)
    as [[[r w'] t] Hrun].
  destruct (forEachOpportunity_unreadable jobId params opportunities Hbad
              0%nat [] _ _ _ _ Hrun) as [e ->].
  destruct (forEachOpportunity_spec formatNow jobId params opportunities 0 []
              _ _ _ _ Hrun) as (_ & Hreq & _).
  eauto 6.
Qed.

(** A fetched record that cannot be read (a parent without [fields], or a
    child without [fields]) aborts the whole job: the worker ends
    normally with the batch error in its log and makes no callback, also
    when records before that one were provisioned. *)
Theorem unreadable_record_aborts_the_job (fuel : nat) (jobId : jsstring)
    (id0 : JsValue) (ids : list JsValue) (c : Client World) (ctx : OrgContext World)
    (org' : Org World) (api : DataApi World) (cb : JsValue) (w w1 w2 : World)
    (paramResult : QueryResult) (opportunities : list SObject) (tq : Trace) :
  context c = Some ctx -> org ctx = Some org' -> dataApi org' = Some api ->
  query api paramQuery w = (Normal paramResult, w1) ->
  queryAll fuel (oppQuery (opportunityIdList (id0 :: ids)))
    {| context := Some {| org := Some org' |} |} w1
    = Some (Normal opportunities, w2, tq) ->
  Exists unreadable opportunities ->
  exists w' t e,
    provisionServices formatNow fuel jobId (JArray (id0 :: ids)) (Some c) cb w
    = Some (Normal tt, w',
            t ++ [Log level_error [LErr "err" e]
                    (lit "Error executing provisioning batch for Job ID: " ++ jobId)]) /\
    requests t = [].
Proof.
  intros Hctx Horg Hapi Hparam Hquery Hbad.
  destruct (forEachOpportunity_aborted jobId (reduceParameters (records paramResult))
              opportunities w2 Hbad) as (e & w3 & tl & Hloop & Hreq).
  destruct (queryAll_spec fuel _ _ _ _ _ _ Hquery) as [_ [Hq _]].
  rewrite provisionServices_nonempty.
  assert (Hbatch : exists t0,
    provisionBatch formatNow fuel jobId (JArray (id0 :: ids)) (Some c) cb w
    = Some (Throw e, w3, t0) /\ requests t0 = []).
  { rewrite (provisionBatch_fetched fuel jobId _ c ctx org' api cb w w1
               paramResult Hctx Horg Hapi Hparam).
    simpl elements. rewrite (bind_normal _ _ _ _ _ _ Hquery).
    unfold logger_info. rewrite bind_emit.
    rewrite (bind_thrown _ _ _ _ _ _ Hloop). unfold after.
    eexists. split; [reflexivity |].
    now rewrite !requests_app, Hq, Hreq. }
  destruct Hbatch as (t0 & Hbatch & Hreq0).
  rewrite (try_catch_thrown _ _ _ _ _ _ Hbatch).
  unfold logger_error, emit, after.
  exists w3, (Log level_info []
               (lit "Processing provisioning job " ++ jobId ++ lit " for "
                ++ numberToString (length (id0 :: ids)) ++ lit " opportunity IDs")
              :: t0), e.
  split; [reflexivity |].
  exact Hreq0.
Qed.

Lemma forEachLineItem_readable (jobId : jsstring) (oppId : Val)
    (params : gmap jsstring Val) (lineItems : list LineItemSObject) :
  Forall (fun oli => is_Some (li_fields oli)) lineItems ->
  forall (counter : nat) (services : list ServiceResult),
    ensures (forEachLineItem formatNow jobId oppId params lineItems counter services)
            (fun r t => exists v, r = Normal v).
Proof.
  induction 1 as [| oli rest [f Hf] _ IH]; intros counter services; simpl.
  - apply ensures_ret. eauto.
  - rewrite Hf. simpl readOf. apply ensures_bind, ensures_ret.
    apply ensures_bind.
    eapply ensures_weaken; [apply mockProvisionCall_spec |].
    intros r t (sr & ts & -> & _). apply ensures_bind, ensures_emit.
    eapply ensures_weaken; [apply IH |]. auto.
Qed.

Lemma forEachOpportunity_readable (jobId : jsstring) (params : gmap jsstring Val)
    (opportunities : list SObject) :
  Forall readable opportunities ->
  forall (counter : nat) (services : list ServiceResult),
    ensures (forEachOpportunity formatNow jobId params opportunities counter services)
            (fun r t => exists v, r = Normal v).
Proof.
  induction 1 as [| o rest [[f Hf] Hchildren] _ IH]; intros counter services; simpl.
  - apply ensures_ret. eauto.
  - rewrite Hf. simpl readOf. apply ensures_bind, ensures_ret.
    unfold childrenOf in Hchildren.
    destruct (lineItemRecords o) as [lineItems |].
    + apply ensures_bind.
      eapply ensures_weaken; [now apply forEachLineItem_readable |].
      intros r t [[c1 s1] ->].
      eapply ensures_weaken; [apply IH |]. auto.
    + eapply ensures_weaken; [apply IH |]. auto.
Qed.

(** The run of the loops over fetched parents that can all be read. *)
Lemma forEachOpportunity_completed (jobId : jsstring) (params : gmap jsstring Val)
    (opportunities : list SObject) (w : World) :
  Forall readable opportunities ->
  exists services w' t,
    forEachOpportunity formatNow jobId params opportunities 0 [] w
    = Some (Normal (length (workItems opportunities), services), w', t) /\
    length services = length (workItems opportunities) /\
    resultsFor jobId 1 (workItems opportunities) services /\
    requests t = [].
Proof.
  intros Hok.
  destruct (returns_forEachOpportunity formatNow jobId params opportunities 0 [] w)
    as [[[r w'] t] Hrun].
  destruct (forEachOpportunity_readable jobId params opportunities Hok
              0%nat [] _ _ _ _ Hrun) as [[c s] ->].
  destruct (forEachOpportunity_spec formatNow jobId params opportunities 0 []
              _ _ _ _ Hrun) as (_ & Hreq & _).
  destruct (forEachOpportunity_items formatNow jobId params opportunities 0 []
              _ _ _ _ Hrun) as (-> & _ & new & Hnew & Hresults).
  simpl in Hnew. subst new.
  exists s, w', t. split; [exact Hrun |].
  split; [now apply resultsFor_length with jobId 1%nat |].
  split; assumption.
Qed.

(** When the records are fetched, all can be read and there is a child at
    least, a job with a callback address calls the callback exactly once,
    at that address, after every child is provisioned: the payload
    carries the job id, the ids as submitted and one ServiceResult for
    each child, in order.  Whatever the callback answers, an exception
    included, the worker ends normally. *)
Theorem readable_records_are_delivered_once (fuel : nat) (jobId : jsstring)
    (id0 : JsValue) (ids : list JsValue) (c : Client World) (ctx : OrgContext World)
    (org' : Org World) (api : DataApi World) (cb : JsValue) (w w1 w2 : World)
    (paramResult : QueryResult) (opportunities : list SObject) (tq : Trace) :
  context c = Some ctx -> org ctx = Some org' -> dataApi org' = Some api ->
  query api paramQuery w = (Normal paramResult, w1) ->
  queryAll fuel (oppQuery (opportunityIdList (id0 :: ids)))
    {| context := Some {| org := Some org' |} |} w1
    = Some (Normal opportunities, w2, tq) ->
  Forall readable opportunities ->
  workItems opportunities <> [] ->
  truthy cb = true ->
  exists w' t options,
    provisionServices formatNow fuel jobId (JArray (id0 :: ids)) (Some c) cb w
    = Some (Normal tt, w', t) /\
    requests t = [(cb, options)] /\
    method options = lit "POST" /\
    cb_jobId (body options) = jobId /\
    cb_opportunityIds (body options) = JArray (id0 :: ids) /\
    cb_status (body options) = lit "completed" /\
    length (cb_services (body options)) = length (workItems opportunities) /\
    resultsFor jobId 1 (workItems opportunities) (cb_services (body options)).
Proof.
  intros Hctx Horg Hapi Hparam Hquery Hok Hsome Hcb.
  destruct (forEachOpportunity_completed jobId (reduceParameters (records paramResult))
              opportunities w2 Hok) as (svcs & w3 & tl & Hloop & Hlen & Hresults & Hreq).
  destruct (queryAll_spec fuel _ _ _ _ _ _ Hquery) as [_ [Hq _]].
  assert (Hnonzero : (length svcs =? 0)%nat = false).
  { apply Nat.eqb_neq. rewrite Hlen. now destruct (workItems opportunities). }
  assert (Hbatch : exists w' t0 t1 options,
    provisionBatch formatNow fuel jobId (JArray (id0 :: ids)) (Some c) cb w
    = Some (Normal tt, w', t0 ++ Request cb options :: t1) /\
    requests t0 = [] /\ requests t1 = [] /\
    method options = lit "POST" /\
    completedPayload jobId (JArray (id0 :: ids)) svcs (body options)).
  { rewrite (provisionBatch_fetched fuel jobId _ c ctx org' api cb w w1
               paramResult Hctx Horg Hapi Hparam).
    simpl elements. rewrite (bind_normal _ _ _ _ _ _ Hquery).
    unfold logger_info at 1. rewrite bind_emit.
    rewrite (bind_normal _ _ _ _ _ _ Hloop).
    cbn [snd]. rewrite Hnonzero.
    unfold logger_info at 1. rewrite bind_emit.
    rewrite Hcb. cbn [negb].
    set (options := {| method := lit "POST";
                       headers := [(lit "Content-Type", lit "application/json")];
                       body := {| cb_jobId := jobId;
                                  cb_opportunityIds := JArray (id0 :: ids);
                                  cb_services := svcs;
                                  cb_summary := jobSummary svcs;
                                  cb_status := lit "completed";
                                  cb_errors := [] |} |}).
    destruct (request org' cb options w3) as [[answer | e] w4] eqn:Hrequest.
    - rewrite (try_catch_normal _ _ w3 w4 tt
                 [Request cb options;
                  Log level_info []
                    (lit "Provisioning callback executed successfully for Job ID: "
                     ++ jobId ++ lit ". Services returned: "
                     ++ numberToString (length svcs))])
        by (now rewrite (bind_await_normal _ _ _ _ _ _ Hrequest)).
      unfold after.
      exists w4, ([Query paramQuery] ++ tq ++ [Log level_info []
               (lit "Processing " ++ numberToString (length opportunities)
                ++ lit " Opportunities for provisioning")] ++ tl
             ++ [Log level_info []
                   (lit "Provisioning job " ++ jobId ++ lit " completed. "
                    ++ numberToString (succeeded (jobSummary svcs))
                    ++ lit " services provisioned.")]), 
        [Log level_info []
           (lit "Provisioning callback executed successfully for Job ID: "
            ++ jobId ++ lit ". Services returned: "
            ++ numberToString (length svcs))], options.
      split; [now rewrite <- !app_assoc |].
      split; [now rewrite !requests_app, Hq, Hreq |].
      repeat split.
    - rewrite (try_catch_thrown _ _ w3 w4 e [Request cb options; Raised e])
        by (now rewrite (bind_await_throw _ _ _ _ _ _ Hrequest)).
      unfold logger_error, emit, after.
      exists w4, ([Query paramQuery] ++ tq ++ [Log level_info []
               (lit "Processing " ++ numberToString (length opportunities)
                ++ lit " Opportunities for provisioning")] ++ tl
             ++ [Log level_info []
                   (lit "Provisioning job " ++ jobId ++ lit " completed. "
                    ++ numberToString (succeeded (jobSummary svcs))
                    ++ lit " services provisioned.")]), 
        [Raised e;
         Log level_error [LErr "err" e; LStr "jobId" jobId]
           (lit "Failed to execute provisioning callback for Job ID: " ++ jobId)],
        options.
      split; [now rewrite <- !app_assoc |].
      split; [now rewrite !requests_app, Hq, Hreq |].
      repeat split. }
  destruct Hbatch as (w' & t0 & t1 & options & Hbatch & Hreq0 & Hreq1 & Hmethod & Hpayload).
  destruct Hpayload as (HjobId & Hids & Hsvcs & _ & Hstatus & _).
  rewrite provisionServices_nonempty, (try_catch_normal _ _ _ _ _ _ Hbatch).
  unfold after. eexists w', _, options. split; [reflexivity |].
  split.
  { rewrite (requests_app [_] (t0 ++ _ :: t1)), requests_app, Hreq0.
    change (Request cb options :: t1) with ([Request cb options] ++ t1).
    now rewrite requests_app, Hreq1. }
  rewrite Hsvcs. auto 8.
Qed.

End Delivery.

(** ** From the request to the callback *)

Section Correlation.

Context {World : Type}.
Context (crypto_randomUUID formatNow : World -> jsstring * World).

Local Abbreviation Trace := (list (Event World)).

(** The two runs of the handler. *)
Lemma handler_run (req : HttpRequest World) (w : World) :
  handler crypto_randomUUID req w
  = Some (Normal tt, snd (crypto_randomUUID w),
          RandomUUID (fst (crypto_randomUUID w))
          :: if contextMissing (salesforce req)
             then [Log level_error [] (lit "Salesforce context not available in request");
                   Reply 401 (ReplyError (lit "Salesforce context required. Ensure x-client-context header is present."))]
             else [Reply 201 (ReplyJob (fst (crypto_randomUUID w)));
                   SetImmediate
                     {| job_jobId := fst (crypto_randomUUID w);
                        job_opportunityIds := opportunityIds (req_body req);
                        job_client := salesforce req;
                        job_callbackUrl := callbackUrl (req_body req) |}]).
Proof.
  unfold handler, bind, randomUUID.
  destruct (crypto_randomUUID w) as [u w1].
  now destruct (contextMissing (salesforce req)).
Qed.

(** What the handler leaves in its trace when it queues a job. *)
Lemma handler_queued (req : HttpRequest World) (w w1 : World)
    (r : Completion unit) (t : Trace) (job : Job World) :
  handler crypto_randomUUID req w = Some (r, w1, t) ->
  SetImmediate job ∈ t ->
  t = [RandomUUID (job_jobId job); Reply 201 (ReplyJob (job_jobId job));
       SetImmediate job] /\
  job_opportunityIds job = opportunityIds (req_body req) /\
  job_callbackUrl job = callbackUrl (req_body req) /\
  job_client job = salesforce req.
Proof.
  rewrite handler_run. intros E Hin. injection E as _ _ <-.
  destruct (contextMissing (salesforce req)).
  - repeat (apply elem_of_cons in Hin as [Hin | Hin]; [discriminate |]).
    inversion Hin.
  - repeat (apply elem_of_cons in Hin as [Hin | Hin]; [try discriminate |]);
      [| inversion Hin].
    injection Hin as ->. repeat split.
Qed.

(** The closure of a job without a callback address calls nothing back. *)
Lemma requests_task_without_url (fuel : nat) (job : Job World) :
  truthy (job_callbackUrl job) = false ->
  ensures (immediateTask formatNow fuel job) (fun _ t => requests t = []).
Proof.
  intros Hurl. unfold immediateTask. apply ensures_try_catch.
  eapply ensures_weaken; [now apply requests_worker_without_url |].
  intros [[] | e] t0 Ht0; [exact Ht0 |].
  apply ensures_emit. now rewrite requests_app, Ht0.
Qed.

(** A callback, whenever one is made for a job that the handler has
    queued, in whatever state of the world the job runs, answers the
    request: it goes to the address that the handler read from the body of
    the request, which is not empty; it is the only one; and its payload
    carries the job id that the 201 reply gave to the submitter and the
    ids that the handler read from the body. *)
Theorem callback_answers_the_submission (req : HttpRequest World)
    (w w1 : World) (r : Completion unit) (t : Trace) (job : Job World)
    (fuel : nat) (w2 w3 : World) (r' : Completion unit) (t' : Trace)
    (url : JsValue) (options : RequestOptions) :
  handler crypto_randomUUID req w = Some (r, w1, t) ->
  SetImmediate job ∈ t ->
  immediateTask formatNow fuel job w2 = Some (r', w3, t') ->
  (url, options) ∈ requests t' ->
  Reply 201 (ReplyJob (cb_jobId (body options))) ∈ t /\
  url = callbackUrl (req_body req) /\ truthy url = true /\
  cb_opportunityIds (body options) = opportunityIds (req_body req) /\
  requests t' = [(url, options)].
Proof.
  intros Hhandler Hqueued Htask Hin.
  destruct (handler_queued req w w1 r t job Hhandler Hqueued)
    as (-> & Hids & Hurl & _).
  destruct (immediateTask_spec formatNow fuel job _ _ _ _ Htask) as (_ & _ & Hd).
  destruct (delivered_payload _ _ _ _ _ _ Hd Hin)
    as (Hreq & -> & k & _ & _ & Hpayload & _).
  destruct Hpayload as (HjobId & Hpids & _).
  rewrite HjobId, Hpids, Hids, Hurl.
  split; [apply list_elem_of_further, list_elem_of_here |].
  split; [reflexivity |].
  split; [| split; [reflexivity | now rewrite <- Hurl]].
  destruct (truthy (callbackUrl (req_body req))) eqn:Htruthy; [reflexivity |].
  exfalso. rewrite <- Hurl in Htruthy.
  rewrite (requests_task_without_url fuel job Htruthy _ _ _ _ Htask) in Hin.
  inversion Hin.
Qed.

End Correlation.

Lemma record_query_is_sent_with_the_accepted_ids_witness :
  exists rest,
    queries (Fixture.traceOf Sample.rejectedIdsRun)
    = paramQuery :: oppQuery [] :: rest.
Proof.
  assert (Hrun : Sample.rejectedIdsRun
                 = Some (Normal tt, 5%nat, Fixture.traceOf Sample.rejectedIdsRun))
    by reflexivity.
  destruct (record_query_is_sent_with_the_accepted_ids Fixture.formatNow 0
              Fixture.jobId (JString (lit "not an id")) []
              (Fixture.clientOf (Fixture.simpleApi Fixture.noParameters) (Normal tt))
              (Fixture.contextOf (Fixture.simpleApi Fixture.noParameters) (Normal tt))
              (Fixture.orgOf (Fixture.simpleApi Fixture.noParameters) (Normal tt))
              (Fixture.simpleApi Fixture.noParameters)
              Fixture.callbackUrl 0%nat 1%nat 5%nat (Fixture.lastPage []) (Normal tt)
              (Fixture.traceOf Sample.rejectedIdsRun)
              eq_refl eq_refl eq_refl eq_refl Hrun) as [Hsent Hnone].
  rewrite <- Hnone; [exact Hsent | repeat constructor].
Defined.

Lemma record_query_failure_ends_the_job_witness :
  exists t0,
    provisionServices Fixture.formatNow 0 Fixture.jobId Fixture.requestedIds
      (Some (Fixture.clientOf Sample.rejectingApi (Normal tt))) Fixture.callbackUrl 0%nat
    = Some (Normal tt, 2%nat,
            [Log level_info []
               (lit "Processing provisioning job " ++ Fixture.jobId ++ lit " for "
                ++ numberToString 1 ++ lit " opportunity IDs");
             Query paramQuery]
            ++ t0
            ++ [Raised Fixture.unavailable;
                Log level_error
                  [LErr "err" Fixture.unavailable; LStr "soql" Sample.requestedQuery]
                  (lit "Error during queryAll execution");
                Log level_error [LErr "err" Fixture.unavailable]
                  (lit "Error executing provisioning batch for Job ID: "
                   ++ Fixture.jobId)]) /\
    quiet t0 /\ requests t0 = [] /\ serviceIdsLogged t0 = [].
Proof.
  apply (record_query_failure_ends_the_job Fixture.formatNow 0 Fixture.jobId
           (JString (lit "006000000000001AAA")) []
           (Fixture.clientOf Sample.rejectingApi (Normal tt))
           (Fixture.contextOf Sample.rejectingApi (Normal tt))
           (Fixture.orgOf Sample.rejectingApi (Normal tt))
           Sample.rejectingApi Fixture.callbackUrl 0%nat 1%nat 2%nat
           (Fixture.lastPage []) Fixture.unavailable
           (Fixture.traceOf (Sample.recordFetch Sample.rejectingApi)));
    reflexivity.
Defined.

Lemma unreadable_record_aborts_the_job_witness :
  length (serviceIdsLogged (Fixture.traceOf
    (provisionServices Fixture.formatNow 0 Fixture.jobId Fixture.requestedIds
       (Some (Fixture.clientOf Sample.unreadableApi (Normal tt)))
       Fixture.callbackUrl 0%nat))) = 2%nat /\
  exists w' t e,
    provisionServices Fixture.formatNow 0 Fixture.jobId Fixture.requestedIds
      (Some (Fixture.clientOf Sample.unreadableApi (Normal tt)))
      Fixture.callbackUrl 0%nat
    = Some (Normal tt, w',
            t ++ [Log level_error [LErr "err" e]
                    (lit "Error executing provisioning batch for Job ID: "
                     ++ Fixture.jobId)]) /\
    requests t = [].
Proof.
  split; [reflexivity |].
  apply (unreadable_record_aborts_the_job Fixture.formatNow 0 Fixture.jobId
           (JString (lit "006000000000001AAA")) []
           (Fixture.clientOf Sample.unreadableApi (Normal tt))
           (Fixture.contextOf Sample.unreadableApi (Normal tt))
           (Fixture.orgOf Sample.unreadableApi (Normal tt))
           Sample.unreadableApi Fixture.callbackUrl 0%nat 1%nat 2%nat
           (Fixture.lastPage []) [Fixture.parent1; Sample.brokenParent]
           (Fixture.traceOf (Sample.recordFetch Sample.unreadableApi)));
    try reflexivity.
  apply Exists_cons_tl, Exists_cons_hd. left. reflexivity.
Defined.

Lemma readable_records_are_delivered_once_witness :
  exists w' t options,
    provisionServices Fixture.formatNow 0 Fixture.jobId Fixture.requestedIds
      (Some (Fixture.clientOf (Fixture.simpleApi Fixture.someParameters)
               (Throw Fixture.unavailable)))
      Fixture.callbackUrl 0%nat
    = Some (Normal tt, w', t) /\
    requests t = [(Fixture.callbackUrl, options)] /\
    method options = lit "POST" /\
    cb_jobId (body options) = Fixture.jobId /\
    cb_opportunityIds (body options) = Fixture.requestedIds /\
    cb_status (body options) = lit "completed" /\
    length (cb_services (body options)) = 2%nat /\
    resultsFor Fixture.jobId 1 (workItems [Fixture.parent1]) (cb_services (body options)).
Proof.
  apply (readable_records_are_delivered_once Fixture.formatNow 0 Fixture.jobId
           (JString (lit "006000000000001AAA")) []
           (Fixture.clientOf (Fixture.simpleApi Fixture.someParameters)
              (Throw Fixture.unavailable))
           (Fixture.contextOf (Fixture.simpleApi Fixture.someParameters)
              (Throw Fixture.unavailable))
           (Fixture.orgOf (Fixture.simpleApi Fixture.someParameters)
              (Throw Fixture.unavailable))
           (Fixture.simpleApi Fixture.someParameters) Fixture.callbackUrl
           0%nat 1%nat 2%nat
           (Fixture.lastPage [Fixture.parameterRecord "DefaultTier" "Premium";
                              Fixture.parameterRecord "Region" "EU"])
           [Fixture.parent1]
           (Fixture.traceOf
              (Sample.recordFetch (Fixture.simpleApi Fixture.someParameters))));
    try reflexivity.
  - apply Forall_cons. split; [| apply Forall_nil_2].
    split; [eexists; reflexivity |].
    repeat (apply Forall_cons; split; [eexists; reflexivity |]).
    apply Forall_nil_2.
  - discriminate.
Defined.

Lemma callback_answers_the_submission_witness :
  Reply 201 (ReplyJob Fixture.jobId) ∈ Fixture.traceOf Sample.submissionRun /\
  truthy Fixture.callbackUrl = true /\
  cb_opportunityIds (body Fixture.deliveredOptions) = Fixture.requestedIds /\
  length (requests (Fixture.traceOf Sample.submittedJobRun)) = 1%nat.
Proof.
  assert (Hhandler : Sample.submissionRun
                     = Some (Normal tt, 1%nat, Fixture.traceOf Sample.submissionRun))
    by reflexivity.
  assert (Htask : Sample.submittedJobRun
                  = Some (Normal tt, 12%nat, Fixture.traceOf Sample.submittedJobRun))
    by reflexivity.
  assert (Hqueued : SetImmediate Sample.submittedJob
                    ∈ Fixture.traceOf Sample.submissionRun)
    by (apply list_elem_of_further, list_elem_of_further, list_elem_of_here).
  assert (Hin : (Fixture.callbackUrl, Fixture.deliveredOptions)
                ∈ requests (Fixture.traceOf Sample.submittedJobRun))
    by apply list_elem_of_here.
  destruct (callback_answers_the_submission Fixture.crypto_randomUUID Fixture.formatNow
              Sample.submission 0%nat 1%nat (Normal tt) _ Sample.submittedJob
              0 7%nat 12%nat (Normal tt) _ Fixture.callbackUrl Fixture.deliveredOptions
              Hhandler Hqueued Htask Hin) as (Hreply & _ & Htruthy & Hids & Hone).
  split; [exact Hreply |].
  split; [exact Htruthy |].
  split; [exact Hids |].
  now rewrite Hone.
Defined.

(** ** One reply for every request *)

Section Replies.

Context {World : Type}.
Context (crypto_randomUUID : World -> jsstring * World).

(** Every request that reaches the handler is answered, and answered once,
    before any query, timer or callback: with 401 and an error text when
    the client context does not expose the data API, and then no job is
    queued; with 201 otherwise, and then one job is queued, whose id is
    the id in the reply and which holds the ids, the callback address and
    the client of the request.  The handler ends normally in both cases,
    having drawn one identifier. *)
Theorem one_reply_for_every_request (req : HttpRequest World) (w : World) :
  exists t code payload,
    handler crypto_randomUUID req w
    = Some (Normal tt, snd (crypto_randomUUID w), t) /\
    replies t = [(code, payload)] /\
    queries t = [] /\ requests t = [] /\ timers t = [] /\
    ((code = 201%nat /\ contextMissing (salesforce req) = false /\
      payload = ReplyJob (fst (crypto_randomUUID w)) /\
      queued t = [{| job_jobId := fst (crypto_randomUUID w);
                     job_opportunityIds := opportunityIds (req_body req);
                     job_client := salesforce req;
                     job_callbackUrl := callbackUrl (req_body req) |}])
     \/ (code = 401%nat /\ contextMissing (salesforce req) = true /\
         queued t = [] /\ exists text, payload = ReplyError text)).
Proof.
  rewrite (handler_run crypto_randomUUID).
  destruct (contextMissing (salesforce req)).
  - eexists _, 401%nat, _. split; [reflexivity |].
    repeat (split; [reflexivity |]). right.
    repeat (split; [reflexivity |]). eauto.
  - eexists _, 201%nat, _. split; [reflexivity |].
    repeat (split; [reflexivity |]). left.
    repeat split.
Qed.

End Replies.

(** ** The file name of a downloaded class *)

Lemma fileNameChar_filename (className : jsstring) :
  forallb fileNameChar (filename className) = true.
Proof.
  induction className as [| c rest IH]; [reflexivity |].
  simpl. rewrite IH, andb_true_r.
  now destruct (fileNameChar c) eqn:Hc.
Qed.

(** The file name made from the name of a class has as many code units as
    the name, and holds only letters, digits and underscores: no path
    separator and no dot, so that the file is written in the download
    directory itself.  A name made of such characters only is kept as it
    is; in particular, making a file name from a file name changes
    nothing. *)
Theorem class_file_name_is_safe (className : jsstring) :
  length (filename className) = length className /\
  forallb fileNameChar (filename className) = true /\
  (forall c, c ∈ filename className -> c <> 47 /\ c <> 92 /\ c <> 46) /\
  filename (filename className) = filename className /\
  (forallb fileNameChar className = true -> filename className = className).
Proof.
  assert (Hfixed : forall s, forallb fileNameChar s = true -> filename s = s).
  { induction s as [| c rest IH]; [reflexivity |].
    simpl. intros H. apply andb_prop in H as [Hc Hrest].
    now rewrite Hc, (IH Hrest). }
  split; [apply length_map |].
  split; [apply fileNameChar_filename |].
  split; [| split; [apply Hfixed, fileNameChar_filename | apply Hfixed]].
  intros c Hin.
  assert (Hc : fileNameChar c = true).
  { pose proof (fileNameChar_filename className) as Hall.
    rewrite forallb_forall in Hall. apply Hall. now apply list_elem_of_In. }
  unfold fileNameChar in Hc.
  repeat split; intros ->; discriminate Hc.
Qed.

Lemma class_file_name_is_safe_witness :
  filename (lit "ExternalService-Billing.v2/api") = lit "ExternalService_Billing_v2_api" /\
  length (filename (lit "ExternalService-Billing.v2/api")) = 30%nat.
Proof.
  destruct (class_file_name_is_safe (lit "ExternalService-Billing.v2/api"))
    as (Hlen & _ & _ & _ & Hfixed).
  split; [reflexivity | exact Hlen].
Defined.
